(** * Glue code of the azureml-examples notebooks and job descriptors

    A shallow embedding of
    - the batch-input preparation, the chunking loops, the endpoint
      invocation retry loop and the compute-cluster setup of
      [image-text-embeddings-batch-endpoint.ipynb], and
    - the fine-tuning job descriptor (a YAML file),
    with the properties the specification states about them.

    Remote calls (the Azure ML client, the file system walk, pandas) are
    environment: their results are inputs of the embedded cells; what a
    cell does with those results is translated from the notebook. *)

From Stdlib Require Import Ascii.
From stdpp Require Import gmap strings list fin_maps pretty.

Open Scope string_scope.
Open Scope nat_scope.
Open Scope list_scope.

(** ** Python values used by the notebook *)

Module Py.

(** [range(start, stop, step)] for a positive step: CPython computes its
    length as [(stop - start + step - 1) // step].  (A zero step raises
    [ValueError] in Python; the notebook only uses steps 10 and 1.) *)
Definition range (start stop step : nat) : list nat :=
  (λ k, start + k * step) <$> seq 0 ((stop - start + step - 1) / step).

(** [l[i:j]] for non-negative bounds: both bounds are clipped to [len(l)]. *)
Definition slice {A} (l : list A) (i j : nat) : list A :=
  take (j - i) (drop i l).

(** [str(i)] of a non-negative integer: its decimal digits. *)
Definition str (i : nat) : string := pretty i.

(** [posixpath.join(a, b)]. *)
Definition starts_with_sep (s : string) : bool :=
  match s with
  | String c _ => if decide (c = "/"%char) then true else false
  | EmptyString => false
  end.

Fixpoint ends_with_sep (s : string) : bool :=
  match s with
  | EmptyString => false
  | String c EmptyString => if decide (c = "/"%char) then true else false
  | String _ s' => ends_with_sep s'
  end.

Definition path_join (a b : string) : string :=
  if starts_with_sep b then b
  else if decide (a = "") then b
  else if ends_with_sep a then a +:+ b
  else a +:+ "/" +:+ b.

(** [p.rfind("/") + 1] as a split of [p] at its last separator:
    [rsplit_sep p = (head, tail)] with [p = head ++ tail], [tail] free of
    separators and [head] empty or ending in a separator. *)
Fixpoint rsplit_sep (p : string) : string * string :=
  match p with
  | EmptyString => ("", "")
  | String c p' =>
      let '(h, t) := rsplit_sep p' in
      if decide (c = "/"%char) then
        (String c h, t)
      else if decide (h = "") then ("", String c t)
      else (String c h, t)
  end.

(** [posixpath.basename(p)]: [p[p.rfind("/")+1:]]. *)
Definition basename (p : string) : string := (rsplit_sep p).2.

(** [s.rstrip("/")]. *)
Fixpoint rstrip_sep (s : string) : string :=
  match s with
  | EmptyString => ""
  | String c s' =>
      let r := rstrip_sep s' in
      if decide (r = "") then
        if decide (c = "/"%char) then "" else String c ""
      else String c r
  end.

(** [posixpath.dirname(p)]: the head of the split, with trailing
    separators removed unless the head consists of separators only. *)
Definition dirname (p : string) : string :=
  let head := (rsplit_sep p).1 in
  if decide (rstrip_sep head = "") then head else rstrip_sep head.

End Py.

(** ** Data frames and CSV files *)

(** A pandas [DataFrame] with string cells: column names and rows, each row
    carrying its index label. *)
Record DataFrame := mkDataFrame {
  df_columns : list string;
  df_rows : list (nat * list string)
}.

(** [pd.DataFrame(data, columns=cols)]: the default [RangeIndex] labels the
    rows 0, 1, 2, ... *)
Definition pd_DataFrame (data : list (list string)) (cols : list string) : DataFrame :=
  mkDataFrame cols (imap (λ i r, (i, r)) data).

(** [len(df)] is the number of rows. *)
Definition df_len (df : DataFrame) : nat := length (df_rows df).

(** [df[i:j]] slices the rows by position and keeps their labels. *)
Definition df_slice (df : DataFrame) (i j : nat) : DataFrame :=
  mkDataFrame (df_columns df) (Py.slice (df_rows df) i j).

(** A CSV file at the level of records: a header line and data lines. *)
Record CsvFile := mkCsvFile {
  csv_header : list string;
  csv_records : list (list string)
}.

(** [df.to_csv(path)] with the defaults [header=True, index=True]: the index
    is written as a first column with an empty name. *)
Definition to_csv (df : DataFrame) : CsvFile :=
  mkCsvFile ("" :: df_columns df)
            ((λ r, Py.str r.1 :: r.2) <$> df_rows df).

(** The local file system, as far as the notebook writes to it. *)
Abbreviation FileSystem := (gmap string CsvFile).

(** ** Cells 13, 17 and 20: dividing the frame into files of 10 rows *)

Definition batch_input_file : string := "batch_input.csv".
Definition batch_size_per_predict : nat := 10.

(** The values [i] of [for i in range(0, len(batch_df), batch_size_per_predict)]. *)
Definition chunk_starts (batch_df : DataFrame) : list nat :=
  Py.range 0 (df_len batch_df) batch_size_per_predict.

(** The frame [batch_df[i:j]] of one iteration, [j = i + batch_size_per_predict]. *)
Definition chunk_at (batch_df : DataFrame) (i : nat) : DataFrame :=
  let j := i + batch_size_per_predict in
  df_slice batch_df i j.

(** The file name of one iteration. *)
Definition chunk_path (folder : string) (i : nat) : string :=
  Py.path_join folder (Py.str i +:+ batch_input_file).

(** The chunks in the order the loop produces them. *)
Definition chunks (batch_df : DataFrame) : list DataFrame :=
  chunk_at batch_df <$> chunk_starts batch_df.

(** The [to_csv] calls of the loop, in order: path and content. *)
Definition chunk_writes (folder : string) (batch_df : DataFrame) : list (string * CsvFile) :=
  (λ i, (chunk_path folder i, to_csv (chunk_at batch_df i))) <$> chunk_starts batch_df.

(** The loop itself: each iteration writes (creates or overwrites) one file. *)
Definition chunk_loop (folder : string) (batch_df : DataFrame) (fs : FileSystem) : FileSystem :=
  foldl (λ fs i,
           let j := i + batch_size_per_predict in
           <[Py.path_join folder (Py.str i +:+ batch_input_file) :=
               to_csv (df_slice batch_df i j)]> fs)
        fs (Py.range 0 (df_len batch_df) batch_size_per_predict).


(** ** Exceptions *)

(** The exception classes the notebook names or can meet: Python's built-in
    roots, the classes of [azure.core.exceptions], and any further class
    given by its name and its base. *)
Inductive PyClass :=
  | BaseException
  | SystemExit
  | KeyboardInterrupt
  | GeneratorExit
  | Exception
  | AzureError
  | ServiceRequestError
  | HttpResponseError
  | ClientAuthenticationError
  | ResourceExistsError
  | ResourceNotFoundError
  | Subclass (name : string) (base : PyClass).

#[global] Instance PyClass_eq_dec : EqDecision PyClass.
Proof. solve_decision. Defined.

(** The method resolution order of a class (single inheritance): the class
    followed by its bases up to [BaseException]. *)
Fixpoint mro (c : PyClass) : list PyClass :=
  c :: match c with
       | BaseException => []
       | SystemExit | KeyboardInterrupt | GeneratorExit | Exception => [BaseException]
       | AzureError => [Exception; BaseException]
       | ServiceRequestError | HttpResponseError =>
           [AzureError; Exception; BaseException]
       | ClientAuthenticationError | ResourceExistsError | ResourceNotFoundError =>
           [HttpResponseError; AzureError; Exception; BaseException]
       | Subclass _ base => mro base
       end.

Definition issubclass (c d : PyClass) : bool := bool_decide (d ∈ mro c).

(** An exception object. *)
Record PyExc := mkExc {
  exc_class : PyClass;
  exc_args : string
}.

#[global] Instance PyExc_eq_dec : EqDecision PyExc.
Proof. solve_decision. Defined.

(** [isinstance(e, c)]: what an [except c] clause tests. *)
Definition isinstance (e : PyExc) (c : PyClass) : bool :=
  issubclass (exc_class e) c.

(** What a call does: it returns a value or raises. *)
Inductive Outcome (A : Type) :=
  | Returned (a : A)
  | Raised (e : PyExc).
Arguments Returned {A} a.
Arguments Raised {A} e.

(** How a cell ends: it runs to its end, or an exception leaves it. *)
Inductive Completion (S : Type) :=
  | Done (s : S)
  | Uncaught (e : PyExc) (s : S).
Arguments Done {S} s.
Arguments Uncaught {S} e s.

Definition final_state {S} (c : Completion S) : S :=
  match c with Done s | Uncaught _ s => s end.

(** ** Cell 4: the compute cluster *)

(** The entity classes of [azure.ai.ml.entities] the cell builds, with the
    keyword arguments it passes. *)
Module Entities.
Record AmlCompute := mkAmlCompute {
  name : string;
  description : string;
  size : string;
  min_instances : nat;
  max_instances : nat;
  idle_time_before_scale_down : nat
}.
End Entities.
Abbreviation AmlCompute := Entities.AmlCompute.

Definition compute_name : string := "cpu-cluster".

(** The client calls and prints of the cell, in order. *)
Inductive ComputeEvent :=
  | CGet (name : string)
  | CPrint (msg : string)
  | CCreate (config : AmlCompute).

Section ComputeSetup.
(** The workspace as the remote service holds it, and the two client
    calls of the cell.  A lookup reads the workspace; a creation may
    change it. *)
Context {Workspace : Type}.
Variable compute_get : Workspace → string → Outcome AmlCompute.
Variable begin_create_or_update :
  Workspace → AmlCompute → Outcome AmlCompute * Workspace.

Definition compute_setup (w : Workspace) : Completion (Workspace * list ComputeEvent) :=
  match compute_get w compute_name with
  | Returned _ =>
      Done (w, [CGet compute_name; CPrint "Found existing compute target."])
  | Raised e =>
      if isinstance e ResourceNotFoundError then
        let compute_config :=
          {| Entities.name := compute_name;
             Entities.description := "An AML compute cluster";
             Entities.size := "Standard_DS3_V2";
             Entities.min_instances := 0;
             Entities.max_instances := 3;
             Entities.idle_time_before_scale_down := 120 |} in
        let log := [CGet compute_name;
                    CPrint "Creating a new compute target...";
                    CCreate compute_config] in
        match begin_create_or_update w compute_config with
        | (Returned _, w') => Done (w', log)
        | (Raised e', w') => Uncaught e' (w', log)
        end
      else Uncaught e (w, [CGet compute_name])
  end.
End ComputeSetup.

(** ** Cells 29, 32 and 35: invoking the endpoint, with retries *)

Record BatchJob := mkBatchJob { job_name : string }.

(** What the cell does that can be observed from outside, in order. *)
Inductive Event :=
  | EInvoke (result : Outcome BatchJob)
  | EPrint (msg : string)
  | ESleep (seconds : nat)
  | EStream (name : string).

(** The results of the invocations in a trace, in order. *)
Definition attempts (tr : list Event) : list (Outcome BatchJob) :=
  omap (λ ev, match ev with EInvoke o => Some o | _ => None end) tr.

(** The durations of the sleeps in a trace, in order. *)
Definition sleeps (tr : list Event) : list nat :=
  omap (λ ev, match ev with ESleep s => Some s | _ => None end) tr.

(** The names of the jobs streamed in a trace. *)
Definition streamed (tr : list Event) : list string :=
  omap (λ ev, match ev with EStream n => Some n | _ => None end) tr.

Definition num_retries : nat := 3.

Definition retry_message : string :=
  "Endpoint invocation failed. Retrying after 5 seconds...".

Section Invocation.
(** The remote service and
    [workspace_ml_client.batch_endpoints.invoke(endpoint_name=..., input=...)],
    which returns a job (a [BatchJob] object, never [None]) or raises, and
    may change the service. *)
Context {Remote : Type}.
Variable invoke : Remote → Outcome BatchJob * Remote.

(** The cell's variables and what it has done so far. *)
Record Cell := mkCell {
  remote : Remote;
  job : option BatchJob;
  trace : list Event
}.

Definition log (evs : list Event) (st : Cell) : Cell :=
  mkCell (remote st) (job st) (trace st ++ evs).

(** [for i in range(num_retries): try: job = invoke(...); break
    except Exception as e: ...], over the remaining values of [i];
    [bound] is the value of [num_retries]. *)
Fixpoint retry_loop (bound : nat) (indices : list nat) (st : Cell) : Completion Cell :=
  match indices with
  | [] => Done st
  | i :: rest =>
      let '(result, remote') := invoke (remote st) in
      let st := mkCell remote' (job st) (trace st ++ [EInvoke result]) in
      match result with
      | Returned j =>
          (* job = ...; break *)
          Done (mkCell (remote st) (Some j) (trace st))
      | Raised e =>
          if isinstance e Exception then
            if decide (i = bound - 1) then
              (* raise e *)
              Uncaught e st
            else
              retry_loop bound rest
                (log [EPrint retry_message; ESleep 5] st)
          else
            (* not caught by [except Exception] *)
            Uncaught e st
      end
  end.

(** The cell from [job = None] to the guarded call of [jobs.stream], for
    a call that returns: the call is recorded as an event when it is made.
    [invoke_and_stream_cell] below is the cell for a call that may raise. *)
Definition invoke_cell (r : Remote) : Completion Cell :=
  match retry_loop num_retries (Py.range 0 num_retries 1) (mkCell r None []) with
  | Done st =>
      match job st with
      | Some j => Done (log [EStream (job_name j)] st)
      | None => Done st
      end
  | Uncaught e st => Uncaught e st
  end.

(** The whole cell, with [workspace_ml_client.jobs.stream(job.name)] as
    the client call it is: it waits for the job on the service, and returns
    or raises; an exception it raises is caught by nothing and leaves the
    cell. *)
Definition invoke_and_stream_cell
    (jobs_stream : Remote → string → Outcome () * Remote) (r : Remote)
    : Completion Cell :=
  match retry_loop num_retries (Py.range 0 num_retries 1) (mkCell r None []) with
  | Done st =>
      match job st with
      | Some j =>
          let '(result, remote') := jobs_stream (remote st) (job_name j) in
          let st := mkCell remote' (job st) (trace st ++ [EStream (job_name j)]) in
          match result with
          | Returned _ => Done st
          | Raised e => Uncaught e st
          end
      | None => Done st
      end
  | Uncaught e st => Uncaught e st
  end.

(** The first [n] results of calling [invoke] again and again. *)
Fixpoint invocations (n : nat) (r : Remote) : list (Outcome BatchJob) :=
  match n with
  | 0 => []
  | S n => let '(o, r') := invoke r in o :: invocations n r'
  end.
End Invocation.

Arguments Cell : clear implicits.
Arguments mkCell {Remote} remote job trace.

(** A remote service that answers from a script, one entry per call, and
    refuses the connection once the script is used up. *)
Definition scripted (script : list (Outcome BatchJob))
    : Outcome BatchJob * list (Outcome BatchJob) :=
  match script with
  | o :: script' => (o, script')
  | [] => (Raised (mkExc ServiceRequestError "connection refused"), [])
  end.

(** ** Cells 10, 12, 16 and 19: the batch-input frames *)

(** The notebook's global variables that the data cells share.  A name
    that was never assigned is unbound ([None]). *)
Record Globals := mkGlobals {
  image_list : list string;
  image_path_list : list string;
  image_path : option string
}.

Definition batch_columns : list string := ["image"; "text"].

Definition text_of_path (image_path : string) : string :=
  "a photo of a " +:+ Py.basename (Py.dirname image_path).

Section DataCells.
(** The local file system as the cell reads it: [os.listdir], [os.walk]
    (triples of path, directory names and file names) and the notebook's
    [read_image], the base64 text of a file's bytes. *)
Variable os_listdir : string → list string.
Variable os_walk : string → list (string * list string * list string).
Variable read_image : string → string.

(** Cell 10.  The [for] loops bind [image_path] at top level, so the name
    stays bound to its last value after the loops. *)
Definition cell_10 (dataset_dir : string) : Globals :=
  foldl (λ g dir_name,
    let dir_path := Py.path_join dataset_dir dir_name in
    foldl (λ g '(path, _, files),
      foldl (λ g file,
        let image_path := Py.path_join path file in
        let image := read_image image_path in
        mkGlobals (image_list g ++ [image])
                  (image_path_list g ++ [image_path])
                  (Some image_path))
        g files)
      g (os_walk dir_path))
    (mkGlobals [] [] None) (os_listdir dataset_dir).
End DataCells.

(** Cell 12: [[image, ""] for image in image_list]. *)
Definition cell_12 (g : Globals) : DataFrame :=
  let data := (λ image, [image; ""]) <$> image_list g in
  pd_DataFrame data batch_columns.

(** Cell 16: the comprehension iterates [image_path] over
    [image_path_list]; its variable is local to the comprehension (Python 3)
    and leaves the global [image_path] as it was. *)
Definition cell_16 (g : Globals) : DataFrame :=
  let data := (λ image_path, [""; text_of_path image_path]) <$> image_path_list g in
  pd_DataFrame data batch_columns.

(** Cell 19: the comprehension iterates [i] over [range(len(image_list))];
    [image_path] in its body is the global name.  [None] stands for the
    cell raising ([NameError] when [image_path] is unbound). *)
Definition cell_19 (g : Globals) : option DataFrame :=
  data ← mapM (λ i,
            image ← image_list g !! i;
            image_path ← image_path g;
            Some [image; text_of_path image_path])
          (Py.range 0 (length (image_list g)) 1);
  Some (pd_DataFrame data batch_columns).

(** The value of a named column in a CSV record. *)
Definition csv_cell (f : CsvFile) (record : list string) (column : string) : option string :=
  (list_to_map (zip (csv_header f) record) : gmap string string) !! column.

(** ** Cells 30, 33 and 36: reading the predictions *)

(** [pd.read_csv(file, header=h, names=names)] at the level of records,
    for a file all of whose records are as wide as [names]: with
    [header=None] every line of the file is data; with [header=h] the lines
    up to line [h] are dropped; the columns are [names] either way.  A file
    with a record of another width is outside what is modelled ([None]):
    pandas then takes leading fields as the index, pads short records, or
    refuses the file. *)
Definition pd_read_csv (file : list (list string)) (header : option nat)
    (names : list string) : option DataFrame :=
  let data := match header with
              | None => file
              | Some h => drop (S h) file
              end in
  if bool_decide (Forall (λ record, length record = length names) file)
  then Some (pd_DataFrame data names)
  else None.

Record ReadCsvCall := mkReadCsvCall {
  arg_header : option nat;
  arg_names : list string
}.

Definition read_predictions_image : ReadCsvCall :=
  {| arg_header := None;
     arg_names := ["row_number_per_file"; "image_features"; "file_name"] |}.


Definition read_predictions_image_text : ReadCsvCall :=
  {| arg_header := None;
     arg_names := ["row_number_per_file"; "image_features"; "text_features"; "file_name"] |}.

Definition score_df (call : ReadCsvCall) (predictions_file : list (list string))
    : option DataFrame :=
  pd_read_csv predictions_file (arg_header call) (arg_names call).




(** One prediction of the remote job. *)
Record Prediction := mkPrediction {
  row_number : nat;
  features : list string;
  file_name : string
}.

(** Modelled from the spec: the predictions file is written by the remote
    scoring job, which is not part of the repository.  The spec says:
    "Output is a CSV of predictions with positional columns (row number,
    feature vector(s), source file name) and no header row".  So the file
    has one record for each prediction and nothing else, with the row
    number first, the feature vectors next and the file name last. *)
Definition predictions_csv (predictions : list Prediction) : list (list string) :=
  (λ p, Py.str (row_number p) :: features p ++ [file_name p]) <$> predictions.

(** ** The fine-tuning job descriptor *)

Module Yaml.

(** The double quote character. *)
Definition dq : string := String (ascii_of_nat 34) "".
Definition quoted (s : string) : string := dq +:+ s +:+ dq.
Definition newline : ascii := ascii_of_nat 10.

(** The descriptor, line by line as in the file. *)
Definition finetuning_job_lines : list string := [
  "type: finetuning";
  "";
  "name: " +:+ quoted "llama-3-8B-with-compute";
  "experiment_name: " +:+ quoted "llama-3-8B-finetuning-experiment";
  "display_name: " +:+ quoted "llama3-8B-display-name";
  "task: text_completion";
  "model_provider: custom";
  "model: ";
  "  path: " +:+ quoted "azureml://registries/azureml-meta/models/Meta-Llama-3-8B/versions/8";
  "  type: mlflow_model";
  "compute: " +:+ quoted "lowpri-a100";
  "training_data: train.jsonl";
  "validation_data:";
  "  path: validation.jsonl";
  "  type: uri_file";
  "hyperparameters:";
  "  num_train_epochs: " +:+ quoted "1";
  "  per_device_train_batch_size: " +:+ quoted "1";
  "  learning_rate: " +:+ quoted "0.00002";
  "properties:";
  "  my_property: " +:+ quoted "my_value";
  "tags:";
  "  foo_tag: " +:+ quoted "bar";
  "outputs:";
  "  registered_model:";
  "    name: " +:+ quoted "llama-3-8B-finetuned-model";
  "    type: mlflow_model"
].

(** The text of the file. *)
Definition finetuning_job_text : string :=
  String.concat (String newline "") finetuning_job_lines.

(** A YAML document of the subset the descriptor uses: block mappings
    whose values are scalars or nested block mappings.  A double-quoted
    scalar is a string; a plain scalar is an integer when it consists of
    digits and a string otherwise. *)
#[warnings="-register-all"]
Inductive value :=
  | Str (s : string)
  | Int (n : N)
  | Map (entries : list (string * value)).

Fixpoint split_lines (s : string) : list string :=
  match s with
  | EmptyString => [""]
  | String c s' =>
      match split_lines s' with
      | l :: ls => if decide (c = newline) then "" :: l :: ls else String c l :: ls
      | [] => [String c ""]
      end
  end.

(** Leading spaces of a line, and the rest. *)
Fixpoint indentation (s : string) : nat * string :=
  match s with
  | String c s' =>
      if decide (c = " "%char) then
        let '(n, rest) := indentation s' in (S n, rest)
      else (0, s)
  | EmptyString => (0, "")
  end.

Fixpoint lstrip (s : string) : string :=
  match s with
  | String c s' => if decide (c = " "%char) then lstrip s' else s
  | EmptyString => ""
  end.

Fixpoint rstrip (s : string) : string :=
  match s with
  | EmptyString => ""
  | String c s' =>
      let r := rstrip s' in
      if decide (r = "") then
        if decide (c = " "%char) then "" else String c ""
      else String c r
  end.

Definition strip (s : string) : string := rstrip (lstrip s).

(** A line [key: rest], split at its first colon. *)
Fixpoint split_colon (s : string) : option (string * string) :=
  match s with
  | EmptyString => None
  | String c s' =>
      if decide (c = ":"%char) then Some ("", s')
      else '(k, v) ← split_colon s'; Some (String c k, v)
  end.

Definition is_digit (c : ascii) : bool :=
  let n := nat_of_ascii c in bool_decide (48 ≤ n ≤ 57).

Fixpoint digits (s : string) (acc : N) : option N :=
  match s with
  | EmptyString => Some acc
  | String c s' =>
      if is_digit c then digits s' (10 * acc + (N_of_ascii c - 48))%N else None
  end.

(** The content of a double-quoted scalar, if [s] is one (no escapes). *)
Fixpoint until_closing_quote (s : string) : option string :=
  match s with
  | EmptyString => None
  | String c s' =>
      if decide (String c s' = dq) then Some ""
      else String c <$> until_closing_quote s'
  end.

Definition scalar (s : string) : value :=
  match s with
  | String c s' =>
      if decide (String c "" = dq) then
        match until_closing_quote s' with
        | Some content => Str content
        | None => Str s
        end
      else match digits s 0 with
           | Some n => Int n
           | None => Str s
           end
  | EmptyString => Str ""
  end.

(** A mapping that is still open while the lines are read: the least
    indentation of its entries, the key it belongs to, and its entries so
    far, last first. *)
Record frame := mkFrame {
  f_indent : nat;
  f_key : string;
  f_entries : list (string * value)
}.

Definition add_entry (k : string) (v : value) (f : frame) : frame :=
  mkFrame (f_indent f) (f_key f) ((k, v) :: f_entries f).

(** Close the mappings that a line indented by [d] ends. *)
Fixpoint close (d : nat) (top : frame) (stack : list frame) : frame * list frame :=
  match stack with
  | [] => (top, [])
  | parent :: stack' =>
      if decide (d < f_indent top) then
        close d (add_entry (f_key top) (Map (rev (f_entries top))) parent) stack'
      else (top, stack)
  end.

Definition read_line (st : frame * list frame) (line : string) : frame * list frame :=
  let '(d, body) := indentation line in
  match split_colon body with
  | None => st                      (* blank line *)
  | Some (k, rest) =>
      let '(top, stack) := close d st.1 st.2 in
      if decide (strip rest = "") then
        (mkFrame (S d) k [], top :: stack)
      else (add_entry k (scalar (strip rest)) top, stack)
  end.

(** [yaml.safe_load] on the subset. *)
Definition load (text : string) : value :=
  let '(top, stack) := foldl read_line (mkFrame 0 "" [], []) (split_lines text) in
  let '(root, _) := close 0 top stack in
  Map (rev (f_entries root)).

Fixpoint assoc (k : string) (entries : list (string * value)) : option value :=
  match entries with
  | [] => None
  | (k', v) :: rest => if decide (k = k') then Some v else assoc k rest
  end.

Definition field (k : string) (v : value) : option value :=
  match v with Map entries => assoc k entries | _ => None end.

End Yaml.

(** Modelled from the spec: the loader that turns the descriptor into a job
    object is the Azure ML SDK's and is not part of the repository.  The
    spec says that the descriptor "deserializes into a configuration object
    exposing the specified compute target, data paths, and hyperparameter
    values unchanged": the object holds the compute target, the path of the
    training data and of the validation data (a data entry is a path or a
    mapping with a [path]), and the hyperparameters as they are written. *)
Record FineTuningJob := mkFineTuningJob {
  ft_compute : Yaml.value;
  ft_training_data : Yaml.value;
  ft_validation_data : Yaml.value;
  ft_hyperparameters : list (string * Yaml.value)
}.

Definition data_path (v : Yaml.value) : option Yaml.value :=
  match v with
  | Yaml.Map _ => Yaml.field "path" v
  | _ => Some v
  end.

Definition load_job (text : string) : option FineTuningJob :=
  let doc := Yaml.load text in
  compute ← Yaml.field "compute" doc;
  training ← Yaml.field "training_data" doc ≫= data_path;
  validation ← Yaml.field "validation_data" doc ≫= data_path;
  hyper ← Yaml.field "hyperparameters" doc;
  match hyper with
  | Yaml.Map entries => Some (mkFineTuningJob compute training validation entries)
  | _ => None
  end.

(** ** Notions used in the statements *)

(** A string whose first character is not the path separator. *)
Definition led_by_non_sep (s : string) : Prop :=
  ∃ c s', s = String c s' ∧ c ≠ "/"%char.

(** Writing a list of files one after the other. *)
Definition write_all (fs : FileSystem) (ws : list (string * CsvFile)) : FileSystem :=
  foldl (λ fs w, <[w.1 := w.2]> fs) fs ws.

(** Sample exceptions and a sample job. *)
Definition http_503 : PyExc := mkExc HttpResponseError "503 Service Unavailable".
Definition interrupt : PyExc := mkExc KeyboardInterrupt "".
Definition job_1 : BatchJob := mkBatchJob "batchjob-1".

(** What the specification says of the combined input: row [i] pairs
    [image_list[i]] with the text derived from [image_path_list[i]]. *)
Definition pairs_image_with_own_text (g : Globals) (df : DataFrame) : Prop :=
  ∀ i image path,
    image_list g !! i = Some image →
    image_path_list g !! i = Some path →
    df_rows df !! i = Some (i, [image; text_of_path path]).

(** A data set of two images in two class folders. *)
Definition two_classes_listdir (d : string) : list string :=
  if decide (d = "./data/fridgeObjects") then ["can"; "carton"] else [].

Definition two_classes_walk (d : string) : list (string * list string * list string) :=
  if decide (d = "./data/fridgeObjects/can") then [(d, [], ["1.jpg"])]
  else if decide (d = "./data/fridgeObjects/carton") then [(d, [], ["2.jpg"])]
  else [].

(** Stand-ins for the base64 text of the two files. *)
Definition two_classes_read_image (p : string) : string :=
  if decide (p = "./data/fridgeObjects/can/1.jpg") then "Y2FuCg=="
  else "Y2FydG9uCg==".

Definition two_classes : Globals :=
  cell_10 two_classes_listdir two_classes_walk two_classes_read_image
    "./data/fridgeObjects".


(** ** Cells 2 and 23: the endpoint name *)

(** [timestamp = str(int(time.time()))] for a clock reading of [seconds]
    whole seconds, and
    [endpoint_name = "clip-embeddings-batch" + str(timestamp)]. *)
Definition timestamp (seconds : N) : string := pretty seconds.

Definition endpoint_name (seconds : N) : string :=
  "clip-embeddings-batch" +:+ timestamp seconds.

(** ** Cell 8: where the data set goes *)

(** [c in s]. *)
Fixpoint contains (c : ascii) (s : string) : bool :=
  match s with
  | EmptyString => false
  | String c' s' => if decide (c' = c) then true else contains c s'
  end.

(** [s.split(c)[0]]: the text before the first [c], all of [s] without one. *)
Fixpoint split_first (c : ascii) (s : string) : string :=
  match s with
  | EmptyString => ""
  | String c' s' => if decide (c' = c) then "" else String c' (split_first c s')
  end.

(** [os.path.split(download_url)[-1].split(".")[0]]; the last component of
    [os.path.split] is what [os.path.basename] returns. *)
Definition dataset_name (download_url : string) : string :=
  split_first "."%char (Py.basename download_url).

Definition dataset_dir (dataset_parent_dir download_url : string) : string :=
  Py.path_join dataset_parent_dir (dataset_name download_url).

(** [os.path.join(dataset_parent_dir, f"{dataset_name}.zip")]. *)
Definition data_file (dataset_parent_dir download_url : string) : string :=
  Py.path_join dataset_parent_dir (dataset_name download_url +:+ ".zip").

(** ** Cells 12, 16 and 19: the three input folders *)

Definition image_csv_folder_path (dataset_parent_dir : string) : string :=
  Py.path_join dataset_parent_dir "batch_image".

Definition text_csv_folder_path (dataset_parent_dir : string) : string :=
  Py.path_join dataset_parent_dir "batch_text".

Definition image_text_csv_folder_path (dataset_parent_dir : string) : string :=
  Py.path_join dataset_parent_dir "batch_image_text".

(** ** Cells 13, 17 and 20: the message after the loop *)

(** The name [i] after [for i in range(...)]: each iteration binds it
    anew, and a loop that never runs leaves it as it was ([None]: unbound). *)
Definition loop_variable_after (batch_df : DataFrame) (i_before : option nat) : option nat :=
  foldl (λ _ i, Some i) i_before (chunk_starts batch_df).

(** [print(f"{input_files[0]} to {str(i)}{batch_input_file}.")], for the
    listing [input_files] of the folder; [None] stands for the statement
    raising ([IndexError] on an empty listing, [NameError] on an unbound
    [i]). *)
Definition announce (input_files : list string) (i : option nat) : option string :=
  first ← input_files !! 0;
  i ← i;
  Some (first +:+ " to " +:+ Py.str i +:+ batch_input_file +:+ ".").

(** ** Cells 30, 33 and 36: where the predictions are *)

(** [os.path.join(a, *p)] joins the components from left to right. *)
Definition path_join_all (a : string) (p : list string) : string :=
  foldl Py.path_join a p.

Definition download_path (dataset_parent_dir : string) : string :=
  Py.path_join dataset_parent_dir "csv-output".

Definition predictions_file (dataset_parent_dir : string) : string :=
  path_join_all dataset_parent_dir
    ["csv-output"; "named-outputs"; "score"; "predictions.csv"].

(** ** Calling the service again and again *)

(** The service after [n] calls of [invoke]. *)
Fixpoint remote_after {Remote : Type} (invoke : Remote → Outcome BatchJob * Remote)
    (n : nat) (r : Remote) : Remote :=
  match n with
  | 0 => r
  | S n => remote_after invoke n (invoke r).2
  end.

(** Attempts with the message and the sleep between each two of them: the
    events of a run that makes these attempts one after the other. *)
Fixpoint spaced (results : list (Outcome BatchJob)) : list Event :=
  match results with
  | [] => []
  | result :: later =>
      EInvoke result ::
        match later with
        | [] => []
        | _ :: _ => [EPrint retry_message; ESleep 5] ++ spaced later
        end
  end.

(** A frame of three image rows, and a folder that still holds the second
    file of an earlier, longer run. *)
Definition three_rows : DataFrame :=
  pd_DataFrame [["aQ=="; ""]; ["ag=="; ""]; ["aw=="; ""]] batch_columns.

Definition folder_with_stale_file : FileSystem :=
  {[ "./data/batch_image/10batch_input.csv" :=
       mkCsvFile [""; "image"; "text"] [["10"; "bA=="; ""]] ]}.

(** The paths cell 10 visits, in the order it visits them. *)
Definition walked_paths (os_listdir : string → list string)
    (os_walk : string → list (string * list string * list string))
    (dataset_dir : string) : list string :=
  dir_name ← os_listdir dataset_dir;
  entry ← os_walk (Py.path_join dataset_dir dir_name);
  Py.path_join entry.1.1 <$> entry.2.

(** The bodies of the three nested loops of cell 10, by name. *)
Definition cell_10_file (read_image : string → string) (path : string)
    (g : Globals) (file : string) : Globals :=
  let image_path := Py.path_join path file in
  let image := read_image image_path in
  mkGlobals (image_list g ++ [image]) (image_path_list g ++ [image_path])
            (Some image_path).

Definition cell_10_entry (read_image : string → string)
    (g : Globals) (entry : string * list string * list string) : Globals :=
  let '(path, _, files) := entry in
  foldl (cell_10_file read_image path) g files.

Definition cell_10_dir (os_walk : string → list (string * list string * list string))
    (read_image : string → string) (dataset_dir : string)
    (g : Globals) (dir_name : string) : Globals :=
  let dir_path := Py.path_join dataset_dir dir_name in
  foldl (cell_10_entry read_image) g (os_walk dir_path).

(** Two predictions of the combined run. *)
Definition sample_predictions : list Prediction :=
  [ mkPrediction 0 ["[0.11, 0.52]"; "[0.23, 0.08]"] "0batch_input.csv";
    mkPrediction 1 ["[0.34, 0.41]"; "[0.17, 0.29]"] "0batch_input.csv" ].

(** A service on which [jobs.stream] fails. *)
Definition stream_fails (e : PyExc) (r : list (Outcome BatchJob)) (name : string)
    : Outcome () * list (Outcome BatchJob) :=
  (Raised e, r).

(** ** Arithmetic of [range] and of slices *)

Section RangeSlices.
Context {A : Type}.
Implicit Types l : list A.

Lemma ceil_div_bounds (n b : nat) :
  0 < b → n ≤ (n + b - 1) / b * b ∧ (n + b - 1) / b * b < n + b.
Proof.
  intros Hb.
  pose proof (Nat.div_mod_eq (n + b - 1) b) as E.
  pose proof (Nat.mod_upper_bound (n + b - 1) b) as U.
  nia.
Qed.

Lemma ceil_div_cases (n b : nat) :
  0 < b →
  (n + b - 1) / b = n / b + (if decide (n mod b = 0) then 0 else 1).
Proof.
  intros Hb.
  pose proof (ceil_div_bounds n b Hb) as [L U].
  pose proof (Nat.div_mod_eq n b) as E.
  pose proof (Nat.mod_upper_bound n b) as M.
  set (m := (n + b - 1) / b) in *.
  case_decide; nia.
Qed.

Lemma range_length (n b : nat) :
  length (Py.range 0 n b) = (n + b - 1) / b.
Proof.
  unfold Py.range. by rewrite length_fmap, length_seq, Nat.sub_0_r.
Qed.

Lemma range_lookup (n b k : nat) :
  k < (n + b - 1) / b → Py.range 0 n b !! k = Some (k * b).
Proof.
  intros Hk. unfold Py.range.
  rewrite Nat.sub_0_r, list_lookup_fmap, lookup_seq_lt by lia.
  reflexivity.
Qed.

Lemma range_lookup_inv (n b k i : nat) :
  Py.range 0 n b !! k = Some i → i = k * b ∧ k < (n + b - 1) / b.
Proof.
  intros H.
  assert (k < (n + b - 1) / b) as Hk.
  { apply lookup_lt_Some in H. by rewrite range_length in H. }
  rewrite range_lookup in H by done. by simplify_eq.
Qed.

Lemma slice_length l i j :
  length (Py.slice l i j) = (j - i) `min` (length l - i).
Proof. unfold Py.slice. by rewrite length_take, length_drop. Qed.

(** Consecutive slices of width [b] that cover the list rebuild it. *)
Lemma concat_slices (b m : nat) : ∀ l,
  length l ≤ m * b →
  concat ((λ k, Py.slice l (k * b) (k * b + b)) <$> seq 0 m) = l.
Proof.
  induction m as [|m IH]; intros l Hl.
  - destruct l; [done | simpl in Hl; lia].
  - cbn [seq fmap list_fmap concat].
    rewrite <- fmap_S_seq, <- list_fmap_compose.
    transitivity (take b l ++ drop b l); [|apply take_drop]. f_equal.
    + unfold Py.slice. simpl. by replace (b - 0) with b by lia.
    + rewrite <- (IH (drop b l)) by (rewrite length_drop; lia).
      f_equal. apply list_fmap_ext. intros _ k _. unfold Py.slice, compose.
      rewrite drop_drop.
      replace (S k * b + b - S k * b) with b by lia.
      replace (k * b + b - k * b) with b by lia.
      do 2 f_equal; lia.
Qed.
End RangeSlices.


(** ** The chunking loop *)

Lemma chunks_length (batch_df : DataFrame) :
  length (chunks batch_df) = (df_len batch_df + 9) / 10.
Proof.
  unfold chunks, chunk_starts, batch_size_per_predict.
  rewrite length_fmap, range_length.
  by replace (df_len batch_df + 10 - 1) with (df_len batch_df + 9) by lia.
Qed.

Lemma chunks_lookup (batch_df : DataFrame) (k : nat) :
  k < length (chunks batch_df) →
  chunks batch_df !! k = Some (df_slice batch_df (10 * k) (10 * k + 10)).
Proof.
  rewrite chunks_length. intros Hk.
  unfold chunks, chunk_starts, batch_size_per_predict.
  rewrite list_lookup_fmap, range_lookup
    by (by replace (df_len batch_df + 10 - 1) with (df_len batch_df + 9) by lia).
  simpl.
  unfold chunk_at, batch_size_per_predict. do 2 f_equal; lia.
Qed.

Lemma chunks_rows (batch_df : DataFrame) :
  df_rows <$> chunks batch_df
  = (λ k, Py.slice (df_rows batch_df) (k * 10) (k * 10 + 10))
      <$> seq 0 ((df_len batch_df + 9) / 10).
Proof.
  unfold chunks, chunk_starts, Py.range, batch_size_per_predict.
  rewrite Nat.sub_0_r. replace (df_len batch_df + 10 - 1) with (df_len batch_df + 9) by lia.
  rewrite <- !list_fmap_compose. by apply list_fmap_ext.
Qed.

(** C1. For every frame of [n] rows the loop with chunk size 10 produces
    the slices [rows[0:10]], [rows[10:20]], ...: there are [ceil(n/10)]
    chunks, chunk [k] is the slice starting at row [10k], every chunk but
    the last has exactly 10 rows, the last one has [n mod 10] rows when 10
    does not divide [n], the chunks do not overlap, and their rows
    concatenated in order are the rows of the frame. *)
Theorem chunking_partitions_rows (batch_df : DataFrame) :
  let n := df_len batch_df in
  let cs := chunks batch_df in
  length cs = n / 10 + (if decide (n mod 10 = 0) then 0 else 1)
  ∧ (∀ k, k < length cs → cs !! k = Some (df_slice batch_df (10 * k) (10 * k + 10)))
  ∧ (∀ k c, cs !! k = Some c → S k < length cs → df_len c = 10)
  ∧ (n mod 10 ≠ 0 → ∃ c, last cs = Some c ∧ df_len c = n mod 10)
  ∧ (∀ k1 k2 c1 c2, cs !! k1 = Some c1 → cs !! k2 = Some c2 → k1 < k2 →
       10 * k1 + df_len c1 ≤ 10 * k2)
  ∧ concat (df_rows <$> cs) = df_rows batch_df.
Proof.
  intros n cs.
  assert (length cs = (n + 9) / 10) as Hlen by apply chunks_length.
  assert (0 < 10) as Hpos by lia.
  pose proof (ceil_div_bounds n 10 Hpos) as [Hlo Hhi].
  pose proof (ceil_div_cases n 10 Hpos) as Hceil.
  replace (n + 10 - 1) with (n + 9) in * by lia.
  assert (∀ k c, cs !! k = Some c →
            df_len c = 10 `min` (n - 10 * k)) as Hsize.
  { intros k c Hk. pose proof (lookup_lt_Some _ _ _ Hk) as Hlt.
    unfold cs in Hk. rewrite chunks_lookup in Hk by done. simplify_eq.
    unfold n, df_len, df_slice. cbn [df_rows]. rewrite slice_length. lia. }
  split_and!.
  - by rewrite Hlen, Hceil.
  - intros k Hk. by apply chunks_lookup.
  - intros k c Hk Hnext. rewrite (Hsize k c Hk). lia.
  - intros Hmod.
    assert (length cs = S (n / 10)) as HS.
    { rewrite Hlen, Hceil. case_decide; [done | lia]. }
    destruct (cs !! (n / 10)) as [c|] eqn:Hc.
    + exists c. split.
      * rewrite last_lookup, HS. done.
      * rewrite (Hsize _ _ Hc).
        pose proof (Nat.div_mod_eq n 10). pose proof (Nat.mod_upper_bound n 10). lia.
    + apply lookup_ge_None in Hc. lia.
  - intros k1 k2 c1 c2 H1 H2 Hlt. rewrite (Hsize _ _ H1). lia.
  - unfold cs. rewrite chunks_rows. apply concat_slices.
    fold (df_len batch_df). fold n. lia.
Qed.

(** ** The chunk files *)

Lemma string_app_length (s t : string) :
  String.length (s +:+ t) = String.length s + String.length t.
Proof. induction s as [|c s IH]; simpl; [done | by rewrite IH]. Qed.

Lemma string_app_assoc (s t u : string) :
  s +:+ t +:+ u = (s +:+ t) +:+ u.
Proof.
  induction s as [|c s IH]; [done|].
  change (String c (s +:+ t +:+ u) = String c ((s +:+ t) +:+ u)).
  by f_equal.
Qed.

Lemma string_app_inv_tail (t : string) : ∀ s1 s2 : string,
  s1 +:+ t = s2 +:+ t → s1 = s2.
Proof.
  induction s1 as [|c1 s1 IH]; intros [|c2 s2] H; simpl in H.
  - done.
  - apply (f_equal String.length) in H.
    rewrite !string_app_length in H. simpl in H. lia.
  - apply (f_equal String.length) in H.
    rewrite !string_app_length in H. simpl in H. lia.
  - injection H as -> H. f_equal. by apply IH.
Qed.

Lemma pretty_N_char_non_sep (x : N) : pretty_N_char x ≠ "/"%char.
Proof. unfold pretty_N_char. by repeat case_match. Qed.

Lemma pretty_N_go_non_sep (x : N) : ∀ s,
  led_by_non_sep s → led_by_non_sep (pretty_N_go x s).
Proof.
  induction (N.lt_wf_0 x) as [x _ IH]. intros s Hs.
  destruct (decide (x = 0%N)) as [->|Hx].
  - by rewrite pretty_N_go_0.
  - rewrite pretty_N_go_step by lia. apply IH.
    + apply N.div_lt; lia.
    + eexists _, _. split; [done | apply pretty_N_char_non_sep].
Qed.

Lemma str_non_sep (i : nat) : led_by_non_sep (Py.str i).
Proof.
  unfold Py.str, pretty, pretty_nat, pretty, pretty_N.
  case_decide as Hi.
  - by eexists _, _.
  - rewrite pretty_N_go_step by lia. apply pretty_N_go_non_sep.
    eexists _, _. split; [done | apply pretty_N_char_non_sep].
Qed.

Lemma starts_with_sep_app (s t : string) :
  led_by_non_sep s → Py.starts_with_sep (s +:+ t) = false.
Proof. intros (c & s' & -> & Hc). simpl. by case_decide. Qed.

Lemma path_join_relative (a b : string) :
  Py.starts_with_sep b = false →
  ∃ prefix, (∀ b', Py.starts_with_sep b' = false → Py.path_join a b' = prefix +:+ b').
Proof.
  intros _. destruct (decide (a = "")) as [->|Ha].
  - exists "". intros b' Hb. unfold Py.path_join. by rewrite Hb.
  - destruct (Py.ends_with_sep a) eqn:E.
    + exists a. intros b' Hb. unfold Py.path_join.
      by rewrite Hb, E, decide_False.
    + exists (a +:+ "/"). intros b' Hb. unfold Py.path_join.
      rewrite Hb, E, decide_False by done.
      apply string_app_assoc.
Qed.

#[global] Instance chunk_path_inj (folder : string) : Inj (=) (=) (chunk_path folder).
Proof.
  intros i j H. unfold chunk_path in H.
  pose proof (starts_with_sep_app _ batch_input_file (str_non_sep i)) as Hi.
  pose proof (starts_with_sep_app _ batch_input_file (str_non_sep j)) as Hj.
  destruct (path_join_relative folder _ Hi) as [prefix Hp].
  rewrite (Hp _ Hi), (Hp _ Hj) in H.
  apply (inj (String.append prefix)) in H.
  apply string_app_inv_tail in H.
  by apply (inj pretty) in H.
Qed.

Lemma chunk_starts_NoDup (batch_df : DataFrame) : NoDup (chunk_starts batch_df).
Proof.
  unfold chunk_starts, Py.range, batch_size_per_predict.
  apply NoDup_fmap_2_strong; [|apply NoDup_seq].
  intros k1 k2 _ _. lia.
Qed.

Lemma chunk_loop_write_all (folder : string) (batch_df : DataFrame) (fs : FileSystem) :
  chunk_loop folder batch_df fs = write_all fs (chunk_writes folder batch_df).
Proof. unfold chunk_loop, write_all, chunk_writes. by rewrite foldl_fmap. Qed.

Lemma write_all_other (ws : list (string * CsvFile)) : ∀ (fs : FileSystem) p,
  p ∉ ws.*1 → write_all fs ws !! p = fs !! p.
Proof.
  induction ws as [|[q c] ws IH]; intros fs p Hp; [done|].
  rewrite fmap_cons in Hp. apply not_elem_of_cons in Hp as [Hne Hp].
  unfold write_all in *. simpl. rewrite IH by done.
  by rewrite lookup_insert_ne.
Qed.

Lemma write_all_lookup (ws : list (string * CsvFile)) : ∀ (fs : FileSystem) p c,
  NoDup ws.*1 → (p, c) ∈ ws → write_all fs ws !! p = Some c.
Proof.
  induction ws as [|[q d] ws IH]; intros fs p c Hnd Hin.
  - by apply elem_of_nil in Hin.
  - rewrite fmap_cons in Hnd. apply NoDup_cons in Hnd as [Hq Hnd].
    apply elem_of_cons in Hin as [[= -> ->]|Hin].
    + unfold write_all. simpl. fold (write_all (<[q:=d]> fs) ws).
      rewrite write_all_other by done. by rewrite lookup_insert_eq.
    + unfold write_all. simpl. by apply IH.
Qed.

Lemma write_all_dom (ws : list (string * CsvFile)) : ∀ fs : FileSystem,
  dom (write_all fs ws) = dom fs ∪ list_to_set ws.*1.
Proof.
  induction ws as [|[q d] ws IH]; intros fs.
  - simpl. set_solver.
  - unfold write_all. simpl. fold (write_all (<[q:=d]> fs) ws).
    rewrite IH, dom_insert_L. set_solver.
Qed.

(** C8. Each chunk goes to a file of its own: the file of the chunk that
    starts at row [i] is named [str(i) + "batch_input.csv"], the naming is
    injective, no two [to_csv] calls of a run hit the same file, after the
    loop every chunk's file holds that chunk, and the number of files
    written is the number of chunks. *)
Theorem chunk_files_are_distinct (folder : string) (batch_df : DataFrame)
    (fs : FileSystem) :
  let ws := chunk_writes folder batch_df in
  (∀ i, chunk_path folder i = Py.path_join folder (Py.str i +:+ "batch_input.csv"))
  ∧ (∀ i j, chunk_path folder i = chunk_path folder j → i = j)
  ∧ ws.*2 = to_csv <$> chunks batch_df
  ∧ NoDup ws.*1
  ∧ (∀ k i, chunk_starts batch_df !! k = Some i →
       chunk_loop folder batch_df fs !! chunk_path folder i
       = Some (to_csv (chunk_at batch_df i)))
  ∧ size (list_to_set ws.*1 : gset string) = length (chunks batch_df)
  ∧ size (dom (chunk_loop folder batch_df ∅)) = length (chunks batch_df).
Proof.
  intros ws.
  assert (ws.*1 = chunk_path folder <$> chunk_starts batch_df) as Hpaths.
  { unfold ws, chunk_writes. rewrite <- list_fmap_compose. by apply list_fmap_ext. }
  assert (NoDup ws.*1) as Hnd.
  { rewrite Hpaths. apply NoDup_fmap_2; [apply _ | apply chunk_starts_NoDup]. }
  assert (size (list_to_set ws.*1 : gset string) = length (chunks batch_df)) as Hsize.
  { rewrite size_list_to_set by done.
    unfold chunks. by rewrite Hpaths, !length_fmap. }
  split_and!; try done.
  - intros i j. apply (inj (chunk_path folder)).
  - unfold ws, chunk_writes, chunks. rewrite <- !list_fmap_compose.
    by apply list_fmap_ext.
  - intros k i Hk. rewrite chunk_loop_write_all. apply write_all_lookup; [done|].
    unfold chunk_writes. apply list_elem_of_fmap. exists i. split; [done|].
    by eapply list_elem_of_lookup_2.
  - rewrite chunk_loop_write_all, write_all_dom, dom_empty_L, (left_id_L ∅ (∪)).
    apply Hsize.
Qed.

(** A frame of 23 rows goes to three files of 10, 10 and 3 rows. *)
Example chunk_files_of_23_rows :
  let batch_df := pd_DataFrame (replicate 23 ["aGVsbG8="; ""]) batch_columns in
  df_len <$> chunks batch_df = [10; 10; 3]
  ∧ (chunk_writes "./data/batch_image" batch_df).*1
    = ["./data/batch_image/0batch_input.csv";
       "./data/batch_image/10batch_input.csv";
       "./data/batch_image/20batch_input.csv"].
Proof. by vm_compute. Qed.

(** A frame of 20 rows goes to two full files, and an empty frame to none. *)
Example chunk_files_of_20_rows_and_of_none :
  df_len <$> chunks (pd_DataFrame (replicate 20 ["aGVsbG8="; ""]) batch_columns)
  = [10; 10]
  ∧ chunks (pd_DataFrame [] batch_columns) = [].
Proof. by vm_compute. Qed.

(** ** The retry loop *)

Section RetryLoop.
Context {Remote : Type}.
Variable invoke : Remote → Outcome BatchJob * Remote.

Lemma attempts_app (tr1 tr2 : list Event) :
  attempts (tr1 ++ tr2) = attempts tr1 ++ attempts tr2.
Proof. apply omap_app. Qed.

(** The loop calls [invoke] again and again on the service, at most once
    per index, and records each result. *)
Lemma retry_loop_attempts (bound : nat) (indices : list nat) : ∀ st,
  ∃ n, n ≤ length indices
    ∧ attempts (trace (final_state (retry_loop invoke bound indices st)))
      = attempts (trace st) ++ invocations invoke n (remote st).
Proof.
  induction indices as [|i rest IH]; intros st.
  - exists 0. simpl. by rewrite app_nil_r.
  - simpl. destruct (invoke (remote st)) as [[j|e] r'] eqn:Hinv.
    + exists 1. simpl. rewrite Hinv, attempts_app. split; [lia | done].
    + destruct (isinstance e Exception); [destruct (decide (i = bound - 1)) as [Hi|Hi]|].
      * exists 1. simpl. rewrite Hinv, attempts_app. split; [lia | done].
      * destruct (IH (log [EPrint retry_message; ESleep 5]
                        (mkCell r' (job st) (trace st ++ [EInvoke (Raised e)]))))
          as (n & Hn & ->).
        exists (S n). split; [lia|]. simpl. rewrite Hinv.
        rewrite !attempts_app. simpl. by rewrite app_nil_r, <- app_assoc.
      * exists 1. simpl. rewrite Hinv, attempts_app. split; [lia | done].
Qed.

(** When the indices end with [bound - 1], the loop ends normally only
    through [break], with [job] assigned. *)
Lemma retry_loop_done_job (bound : nat) (indices : list nat) : ∀ st st',
  last indices = Some (bound - 1) →
  retry_loop invoke bound indices st = Done st' →
  is_Some (job st').
Proof.
  induction indices as [|i rest IH]; intros st st' Hlast Hrun; [done|].
  simpl in Hrun. destruct (invoke (remote st)) as [[j|e] r'].
  - by simplify_eq.
  - destruct (isinstance e Exception); [|done].
    destruct (decide (i = bound - 1)) as [->|Hi]; [done|].
    destruct rest as [|i' rest'].
    + simpl in Hlast. by simplify_eq.
    + eapply IH; [|done]. by rewrite last_cons_cons in Hlast.
Qed.

(** The loop itself streams nothing. *)
Lemma retry_loop_streams_nothing (bound : nat) (indices : list nat) : ∀ st,
  streamed (trace (final_state (retry_loop invoke bound indices st)))
  = streamed (trace st).
Proof.
  induction indices as [|i rest IH]; intros st; [done|].
  simpl. destruct (invoke (remote st)) as [[j|e] r'].
  - simpl. unfold streamed. by rewrite omap_app, app_nil_r.
  - destruct (isinstance e Exception); [destruct (decide (i = bound - 1))|].
    + simpl. unfold streamed. by rewrite omap_app, app_nil_r.
    + rewrite IH. simpl. unfold streamed. by rewrite !omap_app, !app_nil_r.
    + simpl. unfold streamed. by rewrite omap_app, app_nil_r.
Qed.

Lemma range_num_retries : Py.range 0 num_retries 1 = [0; 1; 2].
Proof. reflexivity. Qed.

(** The cell with its loop unrolled: what it does, by the results of up
    to three calls of [invoke]. *)
Lemma invoke_cell_unrolled (r : Remote) :
  let '(o1, r1) := invoke r in
  let '(o2, r2) := invoke r1 in
  let '(o3, r3) := invoke r2 in
  let again := [EPrint retry_message; ESleep 5] in
  invoke_cell invoke r =
    match o1 with
    | Returned j =>
        Done (mkCell r1 (Some j) [EInvoke o1; EStream (job_name j)])
    | Raised e1 =>
        if isinstance e1 Exception then
          match o2 with
          | Returned j =>
              Done (mkCell r2 (Some j)
                      ([EInvoke o1] ++ again ++ [EInvoke o2; EStream (job_name j)]))
          | Raised e2 =>
              if isinstance e2 Exception then
                match o3 with
                | Returned j =>
                    Done (mkCell r3 (Some j)
                            ([EInvoke o1] ++ again ++ [EInvoke o2] ++ again
                               ++ [EInvoke o3; EStream (job_name j)]))
                | Raised e3 =>
                    Uncaught e3
                      (mkCell r3 None
                         ([EInvoke o1] ++ again ++ [EInvoke o2] ++ again
                            ++ [EInvoke o3]))
                end
              else Uncaught e2 (mkCell r2 None ([EInvoke o1] ++ again ++ [EInvoke o2]))
          end
        else Uncaught e1 (mkCell r1 None [EInvoke o1])
    end.
Proof.
  unfold invoke_cell. rewrite range_num_retries. cbn.
  destruct (invoke r) as [[j1|e1] r1];
    destruct (invoke r1) as [[j2|e2] r2] eqn:H2;
    destruct (invoke r2) as [[j3|e3] r3] eqn:H3;
    cbn; try done.
  all: destruct (isinstance e1 Exception); cbn; rewrite ?H2; cbn; try done.
  all: destruct (isinstance e2 Exception); cbn; rewrite ?H3; cbn; try done.
  all: by destruct (isinstance e3 Exception).
Qed.
End RetryLoop.

(** Case analysis on a run of the cell: the results of the calls of
    [invoke] and the classes of the exceptions they raise. *)
Ltac cell_cases invoke r :=
  let H := fresh "Hrun" in
  pose proof (invoke_cell_unrolled invoke r) as H;
  let r1 := fresh "r" in let r2 := fresh "r" in let r3 := fresh "r" in
  let E1 := fresh "Hcall" in let E2 := fresh "Hcall" in let E3 := fresh "Hcall" in
  destruct (invoke r) as [[?j|?e] r1] eqn:E1;
  destruct (invoke r1) as [[?j|?e] r2] eqn:E2;
  destruct (invoke r2) as [[?j|?e] r3] eqn:E3;
  repeat match type of H with
    | context [isinstance ?e Exception] =>
        let X := fresh "Hclass" in destruct (isinstance e Exception) eqn:X
    end;
  cbn in H; rewrite H in *; clear H; cbn in *;
  rewrite ?E1; cbn; rewrite ?E2; cbn; rewrite ?E3; cbn.

(** Case analysis on a position in a concrete trace. *)
Ltac position_cases k :=
  repeat (destruct k as [|k]; cbn in *; simplify_eq; try done).

(** C2. The wrapper calls the endpoint at most 3 times; the attempts are
    consecutive calls of the invoke operation; when an attempt succeeds it
    is the last one and the job it returned is the cell's [job]; when three
    attempts fail, the exception of the third one leaves the cell, the very
    exception that was raised. *)
Theorem retry_bounded_and_reraises {Remote : Type}
    (invoke : Remote → Outcome BatchJob * Remote) (r : Remote) :
  let run := invoke_cell invoke r in
  let tries := attempts (trace (final_state run)) in
  length tries ≤ 3
  ∧ tries = invocations invoke (length tries) r
  ∧ (∀ k j, tries !! k = Some (Returned j) →
       length tries = S k ∧ ∃ st, run = Done st ∧ job st = Some j)
  ∧ (∀ e1 e2 e3, tries = [Raised e1; Raised e2; Raised e3] →
       ∃ st, run = Uncaught e3 st).
Proof.
  intros run tries. subst tries run.
  cell_cases invoke r; (split_and!; [lia | done | |]).
  all: try (intros k j' Hk; position_cases k; eauto).
  all: try (intros; simplify_eq; eauto).
Qed.

Ltac trace_facts := repeat first [ done | lia | reflexivity | split | eexists ].

(** C3. Sleeps happen between consecutive attempts and nowhere else: every
    sleep lasts 5 seconds, comes right after a failed attempt (and its
    message) and is followed at once by the next attempt; after a failed
    attempt that is not the last attempt of the run there is exactly this one
    sleep before the next attempt; no sleep follows a successful attempt or
    the last attempt of the run; so a run sleeps once less than it attempts,
    at most twice. *)
Theorem sleep_between_attempts {Remote : Type}
    (invoke : Remote → Outcome BatchJob * Remote) (r : Remote) :
  let tr := trace (final_state (invoke_cell invoke r)) in
  (∀ k s, tr !! k = Some (ESleep s) →
     s = 5
     ∧ (∃ e, tr !! (k - 2) = Some (EInvoke (Raised e)) ∧ 2 ≤ k)
     ∧ tr !! (k - 1) = Some (EPrint retry_message)
     ∧ ∃ o, tr !! (k + 1) = Some (EInvoke o))
  ∧ (∀ k e k' o, tr !! k = Some (EInvoke (Raised e)) →
       tr !! k' = Some (EInvoke o) → k < k' →
       tr !! (k + 1) = Some (EPrint retry_message)
       ∧ tr !! (k + 2) = Some (ESleep 5)
       ∧ ∃ o', tr !! (k + 3) = Some (EInvoke o'))
  ∧ (∀ k j k' s, tr !! k = Some (EInvoke (Returned j)) →
       tr !! k' = Some (ESleep s) → k' < k)
  ∧ (∀ k o k' s, tr !! k = Some (EInvoke o) →
       (∀ k'' o', tr !! k'' = Some (EInvoke o') → k'' ≤ k) →
       tr !! k' = Some (ESleep s) → k' < k)
  ∧ length (sleeps tr) = length (attempts tr) - 1
  ∧ length (sleeps tr) ≤ 2.
Proof.
  intros tr. subst tr.
  cell_cases invoke r; (split_and!; [ | | | | done | lia]).
  all: try (intros k s Hk; position_cases k; by trace_facts).
  all: try (intros k e' k' o Hk Hk' Hlt; position_cases k; position_cases k';
            try lia; by trace_facts).
  all: try (intros k j' k' s Hk Hk'; position_cases k; position_cases k'; lia).
  all: intros k o k' s Hk Hlast Hk'; position_cases k'; position_cases k;
       try lia; exfalso.
  all: first [ by (epose proof (Hlast 3 _ eq_refl); lia)
             | by (epose proof (Hlast 6 _ eq_refl); lia) ].
Qed.

(** *** No classification of errors, up to [except Exception] *)

(** C4, amended. An exception that is an instance of [Exception], of
    whatever class below it, raised on an attempt before the third is
    followed by another attempt; an exception that is not an instance of
    [Exception] is not caught: it leaves the cell at once, unchanged. *)
Theorem exception_instances_are_retried {Remote : Type}
    (invoke : Remote → Outcome BatchJob * Remote) (r : Remote)
    (k : nat) (e : PyExc) :
  let run := invoke_cell invoke r in
  let tries := attempts (trace (final_state run)) in
  k < num_retries - 1 →
  tries !! k = Some (Raised e) →
  if isinstance e Exception
  then is_Some (tries !! S k)
  else length tries = S k ∧ ∃ st, run = Uncaught e st.
Proof.
  intros run tries Hk Htry. subst tries run. unfold num_retries in Hk.
  revert Htry.
  cell_cases invoke r; intros Htry; position_cases k;
    repeat match goal with
      | H : isinstance ?x Exception = _ |- _ => rewrite H; clear H
      end;
    eauto; lia.
Qed.

Lemma exception_instances_are_retried_witness :
  is_Some (attempts (trace (final_state
             (invoke_cell scripted [Raised http_503; Returned job_1]))) !! 1).
Proof.
  apply (exception_instances_are_retried scripted
           [Raised http_503; Returned job_1] 0 http_503).
  - unfold num_retries. lia.
  - reflexivity.
Defined.

(** C4 as stated fails: a [KeyboardInterrupt] raised by the first attempt
    is no instance of [Exception]; the handler does not catch it, the run
    ends after this one attempt and the second entry of the script is never
    asked for. *)
Lemma keyboard_interrupt_is_not_retried :
  let run := invoke_cell scripted [Raised interrupt; Returned job_1] in
  let tries := attempts (trace (final_state run)) in
  0 < num_retries - 1
  ∧ tries !! 0 = Some (Raised interrupt)
  ∧ tries !! 1 = None
  ∧ run = Uncaught interrupt
            (mkCell [Returned job_1] None [EInvoke (Raised interrupt)]).
Proof. cbv zeta. split_and!; [unfold num_retries; lia | done..]. Qed.

(** *** The guard after the loop *)

(** C9. When the loop ends normally [job] is assigned, so the guard
    [job is not None] holds whenever it is evaluated; when an exception
    leaves the loop it leaves the cell and nothing is streamed; the job is
    streamed exactly when some attempt succeeded, and it is the job of
    that attempt. *)
Theorem job_guard_always_holds {Remote : Type}
    (invoke : Remote → Outcome BatchJob * Remote) (r : Remote) :
  let loop := retry_loop invoke num_retries (Py.range 0 num_retries 1)
                (mkCell r None []) in
  let run := invoke_cell invoke r in
  let tr := trace (final_state run) in
  (∀ st, loop = Done st → is_Some (job st))
  ∧ (∀ e st, loop = Uncaught e st → run = Uncaught e st ∧ streamed (trace st) = [])
  ∧ ((∃ n, EStream n ∈ tr) ↔ (∃ j, Returned j ∈ attempts tr))
  ∧ (∀ j, Returned j ∈ attempts tr → streamed tr = [job_name j]).
Proof.
  intros loop run tr.
  assert (∀ st, loop = Done st → is_Some (job st)) as Hguard.
  { intros st. by apply retry_loop_done_job. }
  split; [done|]. split.
  { intros e st Hloop. subst run. unfold invoke_cell. fold loop.
    rewrite Hloop. split; [done|].
    change st with (final_state (Uncaught e st)). rewrite <- Hloop.
    apply retry_loop_streams_nothing. }
  subst tr run. clear.
  cell_cases invoke r; (split; [set_unfold; naive_solver|]).
  all: intros x Hx; set_unfold; naive_solver.
Qed.

(** *** Sample runs *)

(** Two failures and a success: two sleeps, three attempts, the job of the
    third attempt is streamed. *)
Example run_succeeds_on_third_attempt :
  invoke_cell scripted [Raised http_503; Raised http_503; Returned job_1]
  = Done (mkCell [] (Some job_1)
            [EInvoke (Raised http_503); EPrint retry_message; ESleep 5;
             EInvoke (Raised http_503); EPrint retry_message; ESleep 5;
             EInvoke (Returned job_1); EStream "batchjob-1"]).
Proof. reflexivity. Qed.

(** Three failures: the exception of the third attempt leaves the cell,
    after two sleeps and with nothing streamed; a fourth entry of the script
    is never asked for. *)
Example run_fails_three_times :
  let timeout := mkExc ServiceRequestError "timed out" in
  let denied := mkExc ClientAuthenticationError "401" in
  invoke_cell scripted [Raised http_503; Raised timeout; Raised denied; Returned job_1]
  = Uncaught denied
      (mkCell [Returned job_1] None
         [EInvoke (Raised http_503); EPrint retry_message; ESleep 5;
          EInvoke (Raised timeout); EPrint retry_message; ESleep 5;
          EInvoke (Raised denied)]).
Proof. reflexivity. Qed.

(** A success at once: one attempt, no sleep. *)
Example run_succeeds_at_once :
  invoke_cell scripted [Returned job_1; Returned (mkBatchJob "batchjob-2")]
  = Done (mkCell [Returned (mkBatchJob "batchjob-2")] (Some job_1)
            [EInvoke (Returned job_1); EStream "batchjob-1"]).
Proof. reflexivity. Qed.

(** ** The compute cluster *)

(** C10. The cell first looks the cluster up.  It issues the creation call
    (an [AmlCompute] of size Standard_DS3_V2 with 0 to 3 instances) exactly
    when the lookup raises an instance of [ResourceNotFoundError]; any other
    exception of the lookup leaves the cell with no creation call; when the
    lookup succeeds nothing is created and the workspace is as it was. *)
Theorem compute_created_only_when_not_found {Workspace : Type}
    (compute_get : Workspace → string → Outcome AmlCompute)
    (begin_create_or_update : Workspace → AmlCompute → Outcome AmlCompute * Workspace)
    (w : Workspace) :
  let run := compute_setup compute_get begin_create_or_update w in
  let calls := (final_state run).2 in
  head calls = Some (CGet compute_name)
  ∧ ((∃ config, CCreate config ∈ calls) ↔
       (∃ e, compute_get w compute_name = Raised e
             ∧ isinstance e ResourceNotFoundError = true))
  ∧ (∀ config, CCreate config ∈ calls →
       Entities.name config = compute_name
       ∧ Entities.size config = "Standard_DS3_V2"
       ∧ Entities.min_instances config = 0
       ∧ Entities.max_instances config = 3
       ∧ (final_state run).1 = (begin_create_or_update w config).2)
  ∧ (∀ e, compute_get w compute_name = Raised e →
       isinstance e ResourceNotFoundError = false →
       run = Uncaught e (w, [CGet compute_name]))
  ∧ (∀ cluster, compute_get w compute_name = Returned cluster →
       run = Done (w, [CGet compute_name; CPrint "Found existing compute target."])).
Proof.
  intros run calls. subst calls run. unfold compute_setup.
  destruct (compute_get w compute_name) as [cluster|e] eqn:Hget.
  - cbn. split_and!; try done; set_unfold; naive_solver.
  - destruct (isinstance e ResourceNotFoundError) eqn:Hclass.
    + destruct (begin_create_or_update w _) as [[created|e'] w'] eqn:Hcreate;
        cbn; split_and!; try done.
      all: try (set_unfold; naive_solver).
      all: try (intros ? [= <-] ?; congruence).
      all: intros config Hin; set_unfold;
        destruct_or?; simplify_eq; split_and!; try done; by rewrite Hcreate.
    + cbn. split_and!; try done; try (set_unfold; naive_solver).
      split; [set_unfold; naive_solver|].
      intros (e0 & [= <-] & He0). congruence.
Qed.

(** A workspace as a map from names to clusters: the lookup raises
    [ResourceNotFoundError] for a missing name, the creation stores the
    cluster. *)
Example cluster_is_created_when_missing :
  let get (w : gmap string AmlCompute) n :=
    match w !! n with
    | Some c => Returned c
    | None => Raised (mkExc ResourceNotFoundError "not found")
    end in
  let create (w : gmap string AmlCompute) c :=
    (Returned c, <[Entities.name c := c]> w) in
  ∃ cluster,
    compute_setup get create ∅
    = Done ({[compute_name := cluster]},
            [CGet compute_name; CPrint "Creating a new compute target...";
             CCreate cluster])
    ∧ compute_setup get create {[compute_name := cluster]}
      = Done ({[compute_name := cluster]},
              [CGet compute_name; CPrint "Found existing compute target."]).
Proof.
  eexists. split.
  - unfold compute_setup. rewrite lookup_empty. cbn.
    by rewrite insert_empty.
  - unfold compute_setup. by rewrite lookup_singleton_eq.
Qed.

(** A lookup that fails for another reason creates nothing. *)
Example cluster_is_not_created_on_other_errors :
  let denied := mkExc ClientAuthenticationError "401" in
  let get (w : gmap string AmlCompute) (n : string) : Outcome AmlCompute :=
    Raised denied in
  let create (w : gmap string AmlCompute) c :=
    (Returned c, <[Entities.name c := c]> w) in
  compute_setup get create ∅ = Uncaught denied (∅, [CGet compute_name]).
Proof. reflexivity. Qed.

(** ** Reading the predictions *)






(** The predictions of the sample as the notebook's frame shows them. *)
Example sample_score_df :
  score_df read_predictions_image_text (predictions_csv sample_predictions)
  = Some (mkDataFrame
            ["row_number_per_file"; "image_features"; "text_features"; "file_name"]
            [(0, ["0"; "[0.11, 0.52]"; "[0.23, 0.08]"; "0batch_input.csv"]);
             (1, ["1"; "[0.34, 0.41]"; "[0.17, 0.29]"; "0batch_input.csv"])]).
Proof. by vm_compute. Qed.

(** A record with one field more than there are names is outside the
    model. *)
Example wider_record_is_not_modelled :
  score_df read_predictions_image [["0"; "[0.11, 0.52]"; "[0.23, 0.08]"; "0batch_input.csv"]]
  = None.
Proof. by vm_compute. Qed.

(** ** The job descriptor *)

(** C7. Loading the descriptor gives an object with the values of the
    file: the compute target, the two data paths, and the three
    hyperparameters as the strings they are written as. *)
Theorem finetuning_job_descriptor_loads :
  load_job Yaml.finetuning_job_text
  = Some {| ft_compute := Yaml.Str "lowpri-a100";
            ft_training_data := Yaml.Str "train.jsonl";
            ft_validation_data := Yaml.Str "validation.jsonl";
            ft_hyperparameters :=
              [("num_train_epochs", Yaml.Str "1");
               ("per_device_train_batch_size", Yaml.Str "1");
               ("learning_rate", Yaml.Str "0.00002")] |}.
Proof. vm_compute. reflexivity. Qed.

(** ** The batch-input frames and files *)

Lemma cell_12_rows (g : Globals) (i : nat) (row : nat * list string) :
  df_rows (cell_12 g) !! i = Some row →
  ∃ image, image_list g !! i = Some image ∧ row = (i, [image; ""]).
Proof.
  unfold cell_12, pd_DataFrame. cbn [df_rows].
  rewrite list_lookup_imap, list_lookup_fmap. intros H.
  destruct (image_list g !! i) as [image|]; simplify_eq/=. eauto.
Qed.

Lemma cell_16_rows (g : Globals) (i : nat) (row : nat * list string) :
  df_rows (cell_16 g) !! i = Some row →
  ∃ path, image_path_list g !! i = Some path ∧ row = (i, [""; text_of_path path]).
Proof.
  unfold cell_16, pd_DataFrame. cbn [df_rows].
  rewrite list_lookup_imap, list_lookup_fmap. intros H.
  destruct (image_path_list g !! i) as [path|]; simplify_eq/=. eauto.
Qed.

(** Every row of the combined frame carries the text of the one path that
    the global [image_path] is bound to. *)
Lemma cell_19_rows (g : Globals) (df : DataFrame) (i : nat) (row : nat * list string) :
  cell_19 g = Some df →
  df_rows df !! i = Some row →
  ∃ image path, image_list g !! i = Some image ∧ image_path g = Some path
                ∧ row = (i, [image; text_of_path path]).
Proof.
  unfold cell_19. intros Hcell Hrow.
  destruct (mapM _ _) as [data|] eqn:Hdata; simplify_eq/=.
  apply mapM_Some_1 in Hdata.
  unfold pd_DataFrame in Hrow. cbn [df_rows] in Hrow.
  rewrite list_lookup_imap in Hrow.
  destruct (data !! i) as [cells|] eqn:Hcells; simplify_eq/=.
  destruct (Forall2_lookup_r _ _ _ _ _ Hdata Hcells) as (k & Hk & Hf).
  apply range_lookup_inv in Hk as [-> _].
  rewrite Nat.mul_1_r in Hf.
  destruct (image_list g !! i) as [image|]; simplify_eq/=.
  destruct (image_path g) as [path|]; simplify_eq/=. eauto.
Qed.

Lemma foldl_invariant {A B} (P : A → Prop) (f : A → B → A) (l : list B) : ∀ a,
  (∀ a x, P a → P (f a x)) → P a → P (foldl f a l).
Proof. induction l as [|x l IH]; intros a Hf Ha; simpl; auto. Qed.

(** After cell 10 the global [image_path] is the last path of
    [image_path_list], and the two lists are equally long. *)
Lemma cell_10_image_path (os_listdir : string → list string)
    (os_walk : string → list (string * list string * list string))
    (read_image : string → string) (dataset_dir : string) :
  let g := cell_10 os_listdir os_walk read_image dataset_dir in
  image_path g = last (image_path_list g)
  ∧ length (image_list g) = length (image_path_list g).
Proof.
  unfold cell_10.
  apply (foldl_invariant
           (λ g, image_path g = last (image_path_list g)
                 ∧ length (image_list g) = length (image_path_list g)));
    [|done].
  intros g dir_name Hg. apply foldl_invariant; [|done].
  intros g' [[path dirs] files] Hg'. apply foldl_invariant; [|done].
  intros g'' file [_ Hlen]. cbn. rewrite last_snoc, !length_app, Hlen. done.
Qed.

Lemma chunk_rows_subseteq (df : DataFrame) (i : nat) :
  df_rows (chunk_at df i) ⊆ df_rows df.
Proof.
  unfold chunk_at, df_slice, Py.slice. cbn [df_rows].
  etrans; [apply subseteq_take | apply subseteq_drop].
Qed.

(** X6. The files of the image-only input: columns [image] and [text]
    after the index column, an empty [text] in every record, and an image
    of [image_list] under [image]. *)
Lemma image_only_files (folder : string) (g : Globals) (p : string) (f : CsvFile) :
  (p, f) ∈ chunk_writes folder (cell_12 g) →
  csv_header f = [""; "image"; "text"]
  ∧ ∀ record, record ∈ csv_records f →
      csv_cell f record "text" = Some ""
      ∧ ∃ image, image ∈ image_list g ∧ csv_cell f record "image" = Some image.
Proof.
  unfold chunk_writes. intros Hin.
  apply list_elem_of_fmap in Hin as (i & [= -> ->] & _).
  split; [done|]. intros record Hrec.
  unfold to_csv in Hrec. cbn [csv_records] in Hrec.
  apply list_elem_of_fmap in Hrec as ([label cells] & -> & Hrow).
  apply chunk_rows_subseteq, list_elem_of_lookup in Hrow as [k Hk].
  apply cell_12_rows in Hk as (image & Himage & [= -> ->]).
  split; [done|]. exists image. split; [|done].
  by eapply list_elem_of_lookup_2.
Qed.

(** X7. The files of the text-only input: columns [image] and [text]
    after the index column, an empty [image] in every record, and under
    [text] the text of a path of [image_path_list]. *)
Lemma text_only_files (folder : string) (g : Globals) (p : string) (f : CsvFile) :
  (p, f) ∈ chunk_writes folder (cell_16 g) →
  csv_header f = [""; "image"; "text"]
  ∧ ∀ record, record ∈ csv_records f →
      csv_cell f record "image" = Some ""
      ∧ ∃ path, path ∈ image_path_list g
                ∧ csv_cell f record "text" = Some (text_of_path path).
Proof.
  unfold chunk_writes. intros Hin.
  apply list_elem_of_fmap in Hin as (i & [= -> ->] & _).
  split; [done|]. intros record Hrec.
  unfold to_csv in Hrec. cbn [csv_records] in Hrec.
  apply list_elem_of_fmap in Hrec as ([label cells] & -> & Hrow).
  apply chunk_rows_subseteq, list_elem_of_lookup in Hrow as [k Hk].
  apply cell_16_rows in Hk as (path & Hpath & [= -> ->]).
  split; [done|]. exists path. split; [|done].
  by eapply list_elem_of_lookup_2.
Qed.

(** C5, the combined input on two images of different classes: the first
    row gets the text of the last image's folder ("carton") and not the
    text of its own path ("can"), because the comprehension of cell 19
    reads the global [image_path] that cell 10 left behind. *)
Theorem combined_rows_take_text_of_last_path :
  image_list two_classes = ["Y2FuCg=="; "Y2FydG9uCg=="]
  ∧ image_path_list two_classes
    = ["./data/fridgeObjects/can/1.jpg"; "./data/fridgeObjects/carton/2.jpg"]
  ∧ image_path two_classes = Some "./data/fridgeObjects/carton/2.jpg"
  ∧ text_of_path "./data/fridgeObjects/can/1.jpg" = "a photo of a can"
  ∧ cell_16 two_classes
    = mkDataFrame ["image"; "text"]
        [(0, [""; "a photo of a can"]); (1, [""; "a photo of a carton"])]
  ∧ cell_19 two_classes
    = Some (mkDataFrame ["image"; "text"]
              [(0, ["Y2FuCg=="; "a photo of a carton"]);
               (1, ["Y2FydG9uCg=="; "a photo of a carton"])])
  ∧ ∀ df, cell_19 two_classes = Some df → ¬ pairs_image_with_own_text two_classes df.
Proof.
  split_and!; try by vm_compute.
  intros df Hdf Hpairs.
  specialize (Hpairs 0 _ _ eq_refl eq_refl).
  vm_compute in Hdf. injection Hdf as <-.
  vm_compute in Hpairs. discriminate Hpairs.
Qed.

(** ** More on the chunk files *)

Lemma chunk_starts_lookup_inv (batch_df : DataFrame) (k i : nat) :
  chunk_starts batch_df !! k = Some i → i = k * 10 ∧ i < df_len batch_df.
Proof.
  unfold chunk_starts, batch_size_per_predict. intros H.
  apply range_lookup_inv in H as [-> Hk]. split; [done|].
  pose proof (ceil_div_bounds (df_len batch_df) 10 ltac:(lia)). lia.
Qed.

Lemma chunk_at_length (batch_df : DataFrame) (i : nat) :
  df_len (chunk_at batch_df i) = 10 `min` (df_len batch_df - i).
Proof.
  unfold chunk_at, batch_size_per_predict, df_len, df_slice. cbn [df_rows].
  rewrite slice_length. lia.
Qed.

(** X1. No file of the loop is empty and none has more than 10 records;
    each starts with the frame's columns after the unnamed index column. *)
Theorem chunk_files_hold_1_to_10_records (folder : string) (batch_df : DataFrame) :
  Forall (λ w : string * CsvFile,
            1 ≤ length (csv_records w.2) ≤ 10
            ∧ csv_header w.2 = "" :: df_columns batch_df)
         (chunk_writes folder batch_df).
Proof.
  unfold chunk_writes. apply Forall_fmap, Forall_lookup. intros k i Hk.
  apply chunk_starts_lookup_inv in Hk as [-> Hlt].
  unfold compose. cbn [snd]. split; [|done].
  unfold to_csv. cbn [csv_records]. rewrite length_fmap.
  fold (df_len (chunk_at batch_df (k * 10))). rewrite chunk_at_length. lia.
Qed.

(** X2. Read one after the other in the order they are written, the
    records of the files are the records [to_csv] gives for the whole
    frame: every row is in exactly one file, under the index label it has in
    the frame (the labels do not start again at 0 in each file). *)
Theorem chunk_files_records_concat (folder : string) (batch_df : DataFrame) :
  concat (csv_records <$> (chunk_writes folder batch_df).*2)
  = csv_records (to_csv batch_df).
Proof.
  assert ((chunk_writes folder batch_df).*2 = to_csv <$> chunks batch_df) as ->.
  { unfold chunk_writes, chunks. rewrite <- !list_fmap_compose.
    by apply list_fmap_ext. }
  rewrite <- list_fmap_compose.
  transitivity ((λ r : nat * list string, Py.str r.1 :: r.2)
                  <$> concat (df_rows <$> chunks batch_df)).
  - generalize (chunks batch_df). intros cs.
    induction cs as [|c cs IH]; [done|].
    cbn. rewrite fmap_app. f_equal. apply IH.
  - rewrite chunks_rows, concat_slices; [done|].
    pose proof (ceil_div_bounds (df_len batch_df) 10 ltac:(lia)) as [Hlo _].
    replace (df_len batch_df + 10 - 1) with (df_len batch_df + 9) in Hlo by lia.
    done.
Qed.

(** X3. The loop only ever writes: a file of the folder whose number is
    not below the number of rows, left by an earlier run on more rows, is
    still there after the loop, with its old content. *)
Theorem stale_chunk_files_survive (folder : string) (batch_df : DataFrame)
    (fs : FileSystem) (i : nat) :
  df_len batch_df ≤ i →
  chunk_loop folder batch_df fs !! chunk_path folder i = fs !! chunk_path folder i.
Proof.
  intros Hi. rewrite chunk_loop_write_all. apply write_all_other.
  unfold chunk_writes. rewrite <- list_fmap_compose.
  intros Hin. apply list_elem_of_fmap in Hin as (i' & Heq & Hi').
  cbn in Heq. apply (inj (chunk_path folder)) in Heq as <-.
  apply list_elem_of_lookup in Hi' as [k Hk].
  apply chunk_starts_lookup_inv in Hk. lia.
Qed.

Lemma stale_chunk_files_survive_witness :
  chunk_loop "./data/batch_image" three_rows folder_with_stale_file
    !! chunk_path "./data/batch_image" 10
  = folder_with_stale_file !! chunk_path "./data/batch_image" 10.
Proof.
  apply (stale_chunk_files_survive "./data/batch_image" three_rows
           folder_with_stale_file 10).
  vm_compute. lia.
Defined.

Lemma loop_variable_after_last (batch_df : DataFrame) (i_before : option nat) :
  loop_variable_after batch_df i_before
  = match last (chunk_starts batch_df) with
    | Some i => Some i
    | None => i_before
    end.
Proof.
  unfold loop_variable_after. generalize (chunk_starts batch_df). intros l.
  revert i_before. induction l as [|i l IH]; intros b; [done|].
  cbn [foldl]. rewrite IH. destruct l as [|i' l]; [done|].
  rewrite (last_cons_cons i).
  destruct (last (i' :: l)) eqn:E; [done|]. by apply last_None in E.
Qed.

(** X4. For a frame with rows, the name [i] after the loop is the start of
    the last chunk, whatever it was bound to before; the file of that
    number holds the rows from there to the end of the frame, and it is the
    file the message names as the last one. *)
Theorem last_announced_file (folder : string) (batch_df : DataFrame)
    (fs : FileSystem) (i_before : option nat) (input_files : list string)
    (first : string) :
  0 < df_len batch_df →
  input_files !! 0 = Some first →
  let i := 10 * ((df_len batch_df - 1) / 10) in
  loop_variable_after batch_df i_before = Some i
  ∧ chunk_loop folder batch_df fs !! chunk_path folder i
    = Some (to_csv (df_slice batch_df i (df_len batch_df)))
  ∧ announce input_files (loop_variable_after batch_df i_before)
    = Some (first +:+ " to " +:+ Py.str i +:+ "batch_input.csv.").
Proof.
  intros Hn Hfirst i.
  set (n := df_len batch_df) in *.
  assert ((n + 9) / 10 = S ((n - 1) / 10)) as Hceil.
  { replace (n + 9) with ((n - 1) + 1 * 10) by lia.
    rewrite Nat.div_add by lia. lia. }
  assert (chunk_starts batch_df !! ((n - 1) / 10) = Some i) as Hlast.
  { unfold chunk_starts, batch_size_per_predict. fold n.
    rewrite range_lookup; [f_equal; lia|].
    replace (n + 10 - 1) with (n + 9) by lia. lia. }
  assert (loop_variable_after batch_df i_before = Some i) as Hvar.
  { rewrite loop_variable_after_last, last_lookup.
    unfold chunk_starts at 1. rewrite range_length.
    unfold batch_size_per_predict. fold n.
    replace (n + 10 - 1) with (n + 9) by lia.
    rewrite Hceil. cbn [pred]. by rewrite Hlast. }
  split_and!.
  - done.
  - rewrite chunk_loop_write_all.
    assert (chunk_at batch_df i = df_slice batch_df i n) as <-.
    { unfold chunk_at, df_slice, Py.slice, batch_size_per_predict. f_equal.
      pose proof (Nat.div_mod_eq (n - 1) 10). pose proof (Nat.mod_upper_bound (n - 1) 10).
      rewrite !take_ge; [done| |];
        rewrite length_drop; fold (df_len batch_df); fold n; lia. }
    apply write_all_lookup.
    + unfold chunk_writes. rewrite <- list_fmap_compose.
      apply (NoDup_fmap_2 (chunk_path folder)), chunk_starts_NoDup.
    + unfold chunk_writes. apply list_elem_of_fmap. exists i. split; [done|].
      by eapply list_elem_of_lookup_2.
  - rewrite Hvar. unfold announce. rewrite Hfirst. done.
Qed.

Lemma last_announced_file_witness :
  loop_variable_after three_rows (Some 40) = Some 0
  ∧ chunk_loop "./data/batch_image" three_rows folder_with_stale_file
      !! chunk_path "./data/batch_image" 0
    = Some (to_csv (df_slice three_rows 0 (df_len three_rows)))
  ∧ announce ["0batch_input.csv"] (loop_variable_after three_rows (Some 40))
    = Some ("0batch_input.csv" +:+ " to " +:+ Py.str 0 +:+ "batch_input.csv.").
Proof.
  apply (last_announced_file "./data/batch_image" three_rows
           folder_with_stale_file (Some 40) ["0batch_input.csv"] "0batch_input.csv").
  - vm_compute. lia.
  - reflexivity.
Defined.

(** X5. An empty frame: the loop writes nothing and leaves the folder as
    it is; [i] keeps the value an earlier cell gave it, and the message then
    names a file that this loop did not write (or the statement raises, when
    [i] is unbound). *)
Theorem empty_frame_writes_nothing (folder : string) (batch_df : DataFrame)
    (fs : FileSystem) (i_before : option nat) (input_files : list string) :
  df_len batch_df = 0 →
  chunk_writes folder batch_df = []
  ∧ chunk_loop folder batch_df fs = fs
  ∧ loop_variable_after batch_df i_before = i_before
  ∧ announce input_files (loop_variable_after batch_df None) = None.
Proof.
  intros Hn.
  assert (chunk_starts batch_df = []) as Hstarts.
  { unfold chunk_starts. by rewrite Hn. }
  unfold chunk_writes, chunk_loop, loop_variable_after, announce.
  fold (chunk_starts batch_df). rewrite Hstarts. cbn.
  split_and!; try done. by destruct (input_files !! 0).
Qed.

Lemma empty_frame_writes_nothing_witness :
  chunk_writes "./data/batch_image" (pd_DataFrame [] batch_columns) = []
  ∧ chunk_loop "./data/batch_image" (pd_DataFrame [] batch_columns)
      folder_with_stale_file = folder_with_stale_file
  ∧ loop_variable_after (pd_DataFrame [] batch_columns) (Some 40) = Some 40
  ∧ announce ["10batch_input.csv"]
      (loop_variable_after (pd_DataFrame [] batch_columns) None) = None.
Proof.
  apply (empty_frame_writes_nothing "./data/batch_image"
           (pd_DataFrame [] batch_columns) folder_with_stale_file (Some 40)
           ["10batch_input.csv"]).
  reflexivity.
Defined.

(** ** Paths *)

Lemma string_app_cons (c : ascii) (s t : string) :
  String c s +:+ t = String c (s +:+ t).
Proof. reflexivity. Qed.

Lemma string_app_nil_r (s : string) : s +:+ "" = s.
Proof. induction s as [|c s IH]; [done|]. by rewrite string_app_cons, IH. Qed.

Lemma string_app_eq_nil (s t : string) : s +:+ t = "" → s = "" ∧ t = "".
Proof. destruct s; [done|]. by rewrite string_app_cons. Qed.

Lemma contains_app (c : ascii) (s t : string) :
  contains c (s +:+ t) = contains c s || contains c t.
Proof.
  induction s as [|c' s IH]; [done|].
  rewrite string_app_cons. cbn. by case_decide.
Qed.

Lemma sep_free_starts (s : string) :
  contains "/" s = false → Py.starts_with_sep s = false.
Proof. destruct s as [|c s]; [done|]. cbn. by case_decide. Qed.

Lemma ends_with_sep_app (s t : string) :
  t ≠ "" → Py.ends_with_sep (s +:+ t) = Py.ends_with_sep t.
Proof.
  intros Ht. induction s as [|c s IH]; [done|].
  rewrite string_app_cons. cbn [Py.ends_with_sep].
  destruct (s +:+ t) eqn:E; [|done].
  by apply string_app_eq_nil in E as [_ ?].
Qed.

Lemma ends_with_sep_inv (s : string) :
  Py.ends_with_sep s = true → ∃ q, s = q +:+ "/".
Proof.
  induction s as [|c s IH]; [done|]. cbn [Py.ends_with_sep].
  destruct s as [|c' s'].
  - case_decide as Hc; [|done]. subst c. by exists "".
  - intros H. destruct (IH H) as [q ->]. by exists (String c q).
Qed.

Lemma sep_free_ends (s : string) :
  contains "/" s = false → Py.ends_with_sep s = false.
Proof.
  intros Hs. destruct (Py.ends_with_sep s) eqn:E; [|done].
  apply ends_with_sep_inv in E as [q ->].
  rewrite contains_app in Hs. cbn in Hs. by rewrite orb_true_r in Hs.
Qed.

Lemma rsplit_sep_free (t : string) :
  contains "/" t = false → Py.rsplit_sep t = ("", t).
Proof.
  induction t as [|c t IH]; [done|]. cbn [contains Py.rsplit_sep].
  destruct (decide (c = "/"%char)) as [Hc|Hc]; [done|].
  intros Ht. by rewrite (IH Ht), decide_True.
Qed.

Lemma rsplit_sep_app (s t : string) :
  contains "/" t = false → Py.rsplit_sep (s +:+ "/" +:+ t) = (s +:+ "/", t).
Proof.
  intros Ht. induction s as [|c s IH].
  - change ("" +:+ "/" +:+ t) with (String "/" t).
    cbn [Py.rsplit_sep]. rewrite (rsplit_sep_free t Ht). by rewrite decide_True.
  - change (Py.rsplit_sep (String c (s +:+ "/" +:+ t)) = (String c (s +:+ "/"), t)).
    cbn [Py.rsplit_sep]. rewrite IH.
    case_decide; [done|]. rewrite decide_False; [done|].
    by destruct s.
Qed.

Lemma rstrip_sep_fixed (s : string) :
  Py.ends_with_sep s = false → Py.rstrip_sep s = s.
Proof.
  induction s as [|c s IH]; [done|]. cbn [Py.ends_with_sep Py.rstrip_sep].
  destruct s as [|c' s'].
  - destruct (decide (c = "/"%char)); [done|]. intros _. by rewrite decide_True.
  - intros H. rewrite (IH H). by rewrite decide_False.
Qed.

Lemma rstrip_sep_one (s : string) :
  s ≠ "" → Py.ends_with_sep s = false → Py.rstrip_sep (s +:+ "/") = s.
Proof.
  intros Hne Hs. induction s as [|c s IH]; [done|].
  rewrite string_app_cons. cbn [Py.rstrip_sep].
  destruct s as [|c' s'].
  - cbn [Py.ends_with_sep] in Hs.
    destruct (decide (c = "/"%char)) as [|Hc]; [done|].
    change (Py.rstrip_sep ("" +:+ "/")) with "". by destruct (decide ("" = "")).
  - rewrite IH; [by rewrite decide_False | done | done].
Qed.

(** What [os.path.join(a, b)] is for a relative [b]: [b] after a prefix
    that depends on [a] only and is empty or ends with a separator. *)
Lemma path_join_shape (a : string) :
  ∃ prefix, (prefix = "" ∨ Py.ends_with_sep prefix = true)
    ∧ ∀ b, Py.starts_with_sep b = false → Py.path_join a b = prefix +:+ b.
Proof.
  destruct (decide (a = "")) as [->|Ha].
  - exists "". split; [by left|]. intros b Hb. unfold Py.path_join. by rewrite Hb.
  - destruct (Py.ends_with_sep a) eqn:E.
    + exists a. split; [by right|]. intros b Hb. unfold Py.path_join.
      by rewrite Hb, E, decide_False.
    + exists (a +:+ "/"). split; [right; by rewrite ends_with_sep_app|].
      intros b Hb. unfold Py.path_join.
      rewrite Hb, E, decide_False by done. apply string_app_assoc.
Qed.

Lemma basename_after_prefix (prefix t : string) :
  prefix = "" ∨ Py.ends_with_sep prefix = true →
  contains "/" t = false →
  Py.basename (prefix +:+ t) = t.
Proof.
  intros [->|Hp] Ht; unfold Py.basename.
  - change ("" +:+ t) with t. by rewrite (rsplit_sep_free t Ht).
  - apply ends_with_sep_inv in Hp as [q ->].
    by rewrite <- string_app_assoc, rsplit_sep_app.
Qed.

(** X8. An image that lies directly in a class folder gets the text
    "a photo of a " followed by the folder's name: the text that cell 16
    derives from the path that cell 10 builds for it. *)
Theorem text_of_image_in_class_folder (dataset_dir dir_name file : string) :
  dir_name ≠ "" →
  contains "/" dir_name = false →
  contains "/" file = false →
  text_of_path (Py.path_join (Py.path_join dataset_dir dir_name) file)
  = "a photo of a " +:+ dir_name.
Proof.
  intros Hne Hdir Hfile. unfold text_of_path. f_equal.
  destruct (path_join_shape dataset_dir) as (prefix & Hprefix & Hjoin).
  rewrite (Hjoin dir_name) by by apply sep_free_starts.
  set (P := prefix +:+ dir_name).
  assert (P ≠ "") as HP.
  { intros E. by apply string_app_eq_nil in E as [_ ?]. }
  assert (Py.ends_with_sep P = false) as HPend.
  { unfold P. rewrite ends_with_sep_app by done. by apply sep_free_ends. }
  assert (Py.path_join P file = P +:+ "/" +:+ file) as ->.
  { unfold Py.path_join.
    by rewrite (sep_free_starts file Hfile), HPend, decide_False. }
  assert (Py.dirname (P +:+ "/" +:+ file) = P) as ->.
  { unfold Py.dirname. rewrite rsplit_sep_app by done. cbn [fst].
    rewrite rstrip_sep_one by done. by rewrite decide_False. }
  by apply basename_after_prefix.
Qed.

Lemma text_of_image_in_class_folder_witness :
  text_of_path (Py.path_join (Py.path_join "./data/fridgeObjects" "milk_bottle") "99.jpg")
  = "a photo of a " +:+ "milk_bottle".
Proof.
  apply (text_of_image_in_class_folder "./data/fridgeObjects" "milk_bottle" "99.jpg");
    [discriminate | reflexivity | reflexivity].
Defined.

(** ** More on the data cells *)

Section Cell10.
Variable os_listdir : string → list string.
Variable os_walk : string → list (string * list string * list string).
Variable read_image : string → string.

Lemma cell_10_unfold (dataset_dir : string) :
  cell_10 os_listdir os_walk read_image dataset_dir
  = foldl (cell_10_dir os_walk read_image dataset_dir)
      (mkGlobals [] [] None) (os_listdir dataset_dir).
Proof. reflexivity. Qed.

(** A loop body that appends paths and their images. *)
Definition appends (step : Globals → Globals) (paths : list string) : Prop :=
  ∀ g, image_path_list (step g) = image_path_list g ++ paths
       ∧ image_list (step g) = image_list g ++ (read_image <$> paths).

Lemma appends_foldl {A} (f : Globals → A → Globals) (paths : A → list string)
    (l : list A) :
  (∀ x, appends (λ g, f g x) (paths x)) →
  appends (λ g, foldl f g l) (x ← l; paths x).
Proof.
  intros Hf. induction l as [|x l IH]; intros g.
  - cbn. by rewrite !app_nil_r.
  - cbn [foldl]. destruct (IH (f g x)) as [-> ->].
    destruct (Hf x g) as [-> ->].
    cbn. by rewrite fmap_app, <- !app_assoc.
Qed.

Lemma cell_10_file_appends (path file : string) :
  appends (λ g, cell_10_file read_image path g file) [Py.path_join path file].
Proof. intros g. done. Qed.

Lemma cell_10_entry_appends (entry : string * list string * list string) :
  appends (λ g, cell_10_entry read_image g entry)
          (Py.path_join entry.1.1 <$> entry.2).
Proof.
  destruct entry as [[path dirs] files]. cbn [fst snd cell_10_entry].
  intros g.
  destruct (appends_foldl (cell_10_file read_image path)
              (λ file, [Py.path_join path file]) files
              (cell_10_file_appends path) g) as [-> ->].
  assert ((file ← files; [Py.path_join path file]) = Py.path_join path <$> files)
    as ->; [|done].
  induction files as [|file files IH]; [done|]. cbn. by f_equal.
Qed.

(** X9. Cell 10 visits the files in the order of [os.listdir] and
    [os.walk]: [image_path_list] holds their paths in that order,
    [image_list[i]] is the image read from [image_path_list[i]], and the
    name [image_path] is left bound to the last path (unbound when there is
    no file). *)
Theorem cell_10_lists_aligned (dataset_dir : string) :
  let g := cell_10 os_listdir os_walk read_image dataset_dir in
  image_path_list g = walked_paths os_listdir os_walk dataset_dir
  ∧ image_list g = read_image <$> image_path_list g
  ∧ image_path g = last (image_path_list g).
Proof.
  intros g.
  assert (image_path_list g = walked_paths os_listdir os_walk dataset_dir
          ∧ image_list g
            = read_image <$> walked_paths os_listdir os_walk dataset_dir)
    as [Hpaths Himages].
  { subst g. rewrite cell_10_unfold.
    assert (∀ dir_name,
              appends (λ g, cell_10_dir os_walk read_image dataset_dir g dir_name)
                (entry ← os_walk (Py.path_join dataset_dir dir_name);
                 Py.path_join entry.1.1 <$> entry.2)) as Hdir.
    { intros dir_name. unfold cell_10_dir.
      apply (appends_foldl (cell_10_entry read_image)
               (λ entry, Py.path_join entry.1.1 <$> entry.2)).
      apply cell_10_entry_appends. }
    exact (appends_foldl _ _ (os_listdir dataset_dir) Hdir (mkGlobals [] [] None)). }
  split_and!; [done | by rewrite Himages, Hpaths | apply cell_10_image_path].
Qed.
End Cell10.

(** X10. Run after cell 10, cell 19 never raises, whatever the data set
    (an empty one included), and all rows of its frame carry one and the
    same text: the text of the last path cell 10 visited. *)
Theorem combined_rows_share_one_text (os_listdir : string → list string)
    (os_walk : string → list (string * list string * list string))
    (read_image : string → string) (dataset_dir : string) :
  let g := cell_10 os_listdir os_walk read_image dataset_dir in
  ∃ text,
    cell_19 g
    = Some (pd_DataFrame ((λ image, [image; text]) <$> image_list g) batch_columns)
    ∧ ∀ path, last (image_path_list g) = Some path → text = text_of_path path.
Proof.
  intros g.
  destruct (cell_10_image_path os_listdir os_walk read_image dataset_dir)
    as [Hlast Hlen].
  fold g in Hlast, Hlen.
  destruct (image_path g) as [p|] eqn:Hp.
  - exists (text_of_path p). split; [|intros path Hpath; congruence].
    unfold cell_19.
    assert (mapM (λ i, image ← image_list g !! i;
                       image_path ← image_path g;
                       Some [image; text_of_path image_path])
              (Py.range 0 (length (image_list g)) 1)
            = Some ((λ image, [image; text_of_path p]) <$> image_list g)) as ->;
      [|done].
    apply mapM_Some_2, Forall2_same_length_lookup_2.
    + rewrite length_fmap, range_length.
      replace (length (image_list g) + 1 - 1) with (length (image_list g)) by lia.
      by rewrite Nat.div_1_r.
    + intros i x y Hx Hy. apply range_lookup_inv in Hx as [-> _].
      rewrite Nat.mul_1_r. rewrite list_lookup_fmap in Hy.
      destruct (image_list g !! i) as [image|]; simplify_eq/=.
      by rewrite Hp.
  - exists "". symmetry in Hlast. apply last_None in Hlast.
    rewrite Hlast in Hlen. apply nil_length_inv in Hlen.
    split; [|by rewrite Hlast].
    unfold cell_19. by rewrite Hlen.
Qed.

Lemma image_only_files_witness :
  let f := mkCsvFile [""; "image"; "text"]
             [["0"; "Y2FuCg=="; ""]; ["1"; "Y2FydG9uCg=="; ""]] in
  csv_header f = [""; "image"; "text"]
  ∧ ∀ record, record ∈ csv_records f →
      csv_cell f record "text" = Some ""
      ∧ ∃ image, image ∈ image_list two_classes
                 ∧ csv_cell f record "image" = Some image.
Proof.
  apply (image_only_files "./data/batch_image" two_classes
           "./data/batch_image/0batch_input.csv").
  vm_compute. apply list_elem_of_here.
Defined.

Lemma text_only_files_witness :
  let f := mkCsvFile [""; "image"; "text"]
             [["0"; ""; "a photo of a can"]; ["1"; ""; "a photo of a carton"]] in
  csv_header f = [""; "image"; "text"]
  ∧ ∀ record, record ∈ csv_records f →
      csv_cell f record "image" = Some ""
      ∧ ∃ path, path ∈ image_path_list two_classes
                ∧ csv_cell f record "text" = Some (text_of_path path).
Proof.
  apply (text_only_files "./data/batch_text" two_classes
           "./data/batch_text/0batch_input.csv").
  vm_compute. apply list_elem_of_here.
Defined.

(** ** Names and places *)

(** X11. Endpoint names are unique per second: two runs get the same
    endpoint name exactly when their clocks read the same second. *)
Theorem endpoint_name_injective (seconds1 seconds2 : N) :
  endpoint_name seconds1 = endpoint_name seconds2 ↔ seconds1 = seconds2.
Proof.
  split; [|by intros ->].
  unfold endpoint_name, timestamp. intros H.
  apply (inj (String.append "clip-embeddings-batch")) in H.
  by apply (inj pretty) in H.
Qed.

Lemma contains_split_first (c d : ascii) (s : string) :
  contains d s = false → contains d (split_first c s) = false.
Proof.
  induction s as [|c' s IH]; [done|]. cbn.
  destruct (decide (c' = d)); [done|]. intros Hs.
  destruct (decide (c' = c)); [done|]. cbn. case_decide; [done|]. by apply IH.
Qed.

Lemma split_first_stop (c : ascii) (s t : string) :
  contains c s = false → split_first c (s +:+ String c t) = s.
Proof.
  induction s as [|c' s IH].
  - intros _. change ("" +:+ String c t) with (String c t). cbn.
    by rewrite decide_True.
  - cbn [contains]. destruct (decide (c' = c)) as [|Hc]; [done|]. intros Hs.
    rewrite string_app_cons. cbn [split_first].
    case_decide; [done|]. by rewrite IH.
Qed.

Lemma rsplit_sep_tail_free (p : string) : contains "/" (Py.rsplit_sep p).2 = false.
Proof.
  induction p as [|c p IH]; [done|]. cbn [Py.rsplit_sep].
  destruct (Py.rsplit_sep p) as [h t]. cbn [snd] in IH.
  destruct (decide (c = "/"%char)) as [|Hc]; [done|].
  destruct (decide (h = "")); [|done].
  cbn. by case_decide.
Qed.

Lemma dataset_name_sep_free (download_url : string) :
  contains "/" (dataset_name download_url) = false.
Proof. apply contains_split_first, rsplit_sep_tail_free. Qed.

(** X12. For a URL that ends in [/name.ext], with no separator and no dot
    in [name], the data set is called [name], it is expected in the folder
    [name] of the parent directory, and the archive is kept beside it
    under [name.zip], whatever the extension in the URL. *)
Theorem dataset_name_of_url (dataset_parent_dir base name ext : string) :
  contains "/" name = false →
  contains "." name = false →
  contains "/" ext = false →
  let download_url := base +:+ "/" +:+ name +:+ "." +:+ ext in
  dataset_name download_url = name
  ∧ dataset_dir dataset_parent_dir download_url
    = Py.path_join dataset_parent_dir name
  ∧ data_file dataset_parent_dir download_url
    = Py.path_join dataset_parent_dir (name +:+ ".zip").
Proof.
  intros Hname Hdot Hext download_url.
  assert (dataset_name download_url = name) as Hn.
  { unfold dataset_name, download_url, Py.basename.
    rewrite rsplit_sep_app.
    - cbn [snd]. by apply split_first_stop.
    - rewrite contains_app, Hname. by cbn. }
  unfold dataset_dir, data_file. by rewrite Hn.
Qed.

Lemma dataset_name_of_url_witness :
  let download_url :=
    "https://automlsamplenotebookdata-adcuc7f7bqhhh8a4.b02.azurefd.net/image-classification"
      +:+ "/" +:+ "fridgeObjects" +:+ "." +:+ "zip" in
  dataset_name download_url = "fridgeObjects"
  ∧ dataset_dir "./data" download_url = Py.path_join "./data" "fridgeObjects"
  ∧ data_file "./data" download_url
    = Py.path_join "./data" ("fridgeObjects" +:+ ".zip").
Proof.
  apply (dataset_name_of_url "./data"
           "https://automlsamplenotebookdata-adcuc7f7bqhhh8a4.b02.azurefd.net/image-classification"
           "fridgeObjects" "zip"); reflexivity.
Defined.

(** X13. Whatever the URL and the parent directory, the archive and the
    data set folder are different paths: removing the archive at the end of
    cell 8 does not remove the folder it was extracted to. *)
Theorem archive_is_not_the_dataset_dir (dataset_parent_dir download_url : string) :
  data_file dataset_parent_dir download_url
  ≠ dataset_dir dataset_parent_dir download_url.
Proof.
  unfold data_file, dataset_dir.
  pose proof (dataset_name_sep_free download_url) as Hfree.
  set (n := dataset_name download_url) in *.
  destruct (path_join_shape dataset_parent_dir) as (prefix & _ & Hjoin).
  rewrite (Hjoin n), (Hjoin (n +:+ ".zip")).
  - intros H. apply (inj (String.append prefix)) in H.
    apply (f_equal String.length) in H.
    rewrite string_app_length in H. cbn in H. lia.
  - apply sep_free_starts. rewrite contains_app, Hfree. done.
  - by apply sep_free_starts.
Qed.

Lemma path_join_relative_nonempty (s b : string) :
  s ≠ "" → Py.ends_with_sep s = false → Py.starts_with_sep b = false →
  Py.path_join s b = s +:+ "/" +:+ b.
Proof. intros Hs He Hb. unfold Py.path_join. by rewrite Hb, He, decide_False. Qed.

Lemma chunk_path_in_folder (prefix name : string) (i : nat) :
  name ≠ "" → contains "/" name = false →
  chunk_path (prefix +:+ name) i
  = prefix +:+ name +:+ "/" +:+ Py.str i +:+ batch_input_file.
Proof.
  intros Hne Hfree. unfold chunk_path.
  rewrite path_join_relative_nonempty.
  - by rewrite <- string_app_assoc.
  - intros E. by apply string_app_eq_nil in E as [_ ?].
  - rewrite ends_with_sep_app by done. by apply sep_free_ends.
  - apply starts_with_sep_app, str_non_sep.
Qed.

(** X14. The three inputs never share a file: for every parent directory
    the image, text and image-and-text folders are such that no chunk file
    of one of them is a chunk file of another, although the file names are
    the same in all three. *)
Theorem input_folders_never_collide (dataset_parent_dir : string) (i j : nat) :
  chunk_path (image_csv_folder_path dataset_parent_dir) i
  ≠ chunk_path (text_csv_folder_path dataset_parent_dir) j
  ∧ chunk_path (image_csv_folder_path dataset_parent_dir) i
    ≠ chunk_path (image_text_csv_folder_path dataset_parent_dir) j
  ∧ chunk_path (text_csv_folder_path dataset_parent_dir) i
    ≠ chunk_path (image_text_csv_folder_path dataset_parent_dir) j.
Proof.
  unfold image_csv_folder_path, text_csv_folder_path, image_text_csv_folder_path.
  destruct (path_join_shape dataset_parent_dir) as (prefix & _ & Hjoin).
  rewrite !Hjoin by done.
  rewrite !chunk_path_in_folder by done.
  split_and!; intros H; apply (inj (String.append prefix)) in H;
    rewrite !string_app_cons in H; simplify_eq.
Qed.

(** X15. The predictions are read from inside the folder the job outputs
    are downloaded to: for every parent directory the path of the
    predictions file is the download path followed by
    [/named-outputs/score/predictions.csv]. *)
Theorem predictions_file_in_download_path (dataset_parent_dir : string) :
  predictions_file dataset_parent_dir
  = download_path dataset_parent_dir +:+ "/named-outputs/score/predictions.csv".
Proof.
  unfold predictions_file, download_path, path_join_all. cbn [foldl].
  destruct (path_join_shape dataset_parent_dir) as (prefix & _ & Hjoin).
  rewrite (Hjoin "csv-output") by done.
  assert (∀ p name b, name ≠ "" → Py.ends_with_sep name = false →
            Py.starts_with_sep b = false →
            Py.path_join (p +:+ name) b = p +:+ (name +:+ "/" +:+ b)) as Hstep.
  { intros p name b Hne Hend Hb. rewrite path_join_relative_nonempty.
    - by rewrite <- string_app_assoc.
    - intros E. by apply string_app_eq_nil in E as [_ ?].
    - by rewrite ends_with_sep_app.
    - done. }
  rewrite (Hstep prefix "csv-output") by done.
  change ("csv-output" +:+ "/" +:+ "named-outputs") with "csv-output/named-outputs".
  rewrite (Hstep prefix "csv-output/named-outputs") by done.
  change ("csv-output/named-outputs" +:+ "/" +:+ "score")
    with "csv-output/named-outputs/score".
  rewrite (Hstep prefix "csv-output/named-outputs/score") by done.
  by rewrite <- string_app_assoc.
Qed.

(** ** More on the retry loop *)

(** The events of [spaced], by position: the attempt number [q] is at
    position [3q], and when another attempt follows it, the message is at
    [3q+1] and the sleep at [3q+2]. *)
Lemma spaced_lookup (q : nat) : ∀ results : list (Outcome BatchJob),
  spaced results !! (3 * q) = EInvoke <$> results !! q
  ∧ spaced results !! (3 * q + 1)
    = (if decide (S q < length results) then Some (EPrint retry_message) else None)
  ∧ spaced results !! (3 * q + 2)
    = (if decide (S q < length results) then Some (ESleep 5) else None).
Proof.
  induction q as [|q IH]; intros results.
  - destruct results as [|o [|o' later]]; cbn; split_and!;
      try done; case_decide; try done; cbn in *; lia.
  - destruct results as [|o [|o' later]].
    + done.
    + replace (3 * S q) with (S (S (S (3 * q)))) by lia.
      cbn. split_and!; try done; case_decide; try done; cbn in *; lia.
    + destruct (IH (o' :: later)) as (H0 & H1 & H2).
      change (spaced (o :: o' :: later))
        with (EInvoke o :: EPrint retry_message :: ESleep 5 :: spaced (o' :: later)).
      assert (∀ k, (EInvoke o :: EPrint retry_message :: ESleep 5
                      :: spaced (o' :: later)) !! S (S (S k))
                   = spaced (o' :: later) !! k) as Hshift by done.
      replace (3 * S q) with (S (S (S (3 * q)))) by lia.
      replace (S (S (S (3 * q))) + 1) with (S (S (S (3 * q + 1)))) by lia.
      replace (S (S (S (3 * q))) + 2) with (S (S (S (3 * q + 2)))) by lia.
      rewrite !Hshift, H0, H1, H2. cbn [length].
      split_and!; [done | |]; repeat case_decide; done || lia.
Qed.

Lemma spaced_attempts (results : list (Outcome BatchJob)) :
  attempts (spaced results) = results ∧ sleeps (spaced results)
  = replicate (length results - 1) 5.
Proof.
  induction results as [|o [|o' later] IH]; [done..|].
  destruct IH as [IHa IHs].
  change (spaced (o :: o' :: later))
    with (EInvoke o :: EPrint retry_message :: ESleep 5 :: spaced (o' :: later)).
  cbn [attempts sleeps omap list_omap]. fold (attempts (spaced (o' :: later))).
  fold (sleeps (spaced (o' :: later))). rewrite IHa, IHs. cbn.
  by rewrite Nat.sub_0_r.
Qed.

Section RetryAnyBound.
Context {Remote : Type}.
Variable invoke : Remote → Outcome BatchJob * Remote.

Lemma range_by_one (bound : nat) : Py.range 0 bound 1 = seq 0 bound.
Proof.
  unfold Py.range.
  replace ((bound - 0 + 1 - 1) / 1) with bound
    by (rewrite Nat.div_1_r; lia).
  rewrite <- (list_fmap_id (seq 0 bound)) at 2.
  apply list_fmap_ext. intros _ k _. cbn. lia.
Qed.

Lemma invocations_length (n : nat) : ∀ r, length (invocations invoke n r) = n.
Proof.
  induction n as [|n IH]; intros r; [done|].
  cbn. destruct (invoke r). cbn. by rewrite IH.
Qed.

(** The loop over the indices [i, i+1, ..., bound-1], entered with some
    events already recorded. *)
Lemma retry_loop_from (bound : nat) (m : nat) : ∀ i st,
  i + m = bound →
  ∃ n, n ≤ m ∧ (0 < m → 1 ≤ n)
    ∧ trace (final_state (retry_loop invoke bound (seq i m) st))
      = trace st ++ spaced (invocations invoke n (remote st))
    ∧ remote (final_state (retry_loop invoke bound (seq i m) st))
      = remote_after invoke n (remote st)
    ∧ (∀ k o, invocations invoke n (remote st) !! k = Some o → S k < n →
         ∃ e, o = Raised e ∧ isinstance e Exception = true)
    ∧ (0 < m → ∀ st', retry_loop invoke bound (seq i m) st = Done st' →
         is_Some (job st')).
Proof.
  induction m as [|m IH]; intros i st Hbound.
  - exists 0. cbn. rewrite app_nil_r. split_and!; try done; lia.
  - cbn [seq retry_loop].
    destruct (invoke (remote st)) as [[j|e] r'] eqn:Hcall.
    { exists 1. cbn. rewrite Hcall. cbn. split_and!; try done; try lia.
      intros _ st' [= <-]. by eexists. }
    destruct (isinstance e Exception) eqn:Hclass.
    2:{ exists 1. cbn. rewrite Hcall. cbn. split_and!; try done; lia. }
    destruct (decide (i = bound - 1)) as [Hi|Hi].
    { exists 1. cbn. rewrite Hcall. cbn. split_and!; try done; lia. }
    destruct (IH (S i) (log [EPrint retry_message; ESleep 5]
                     (mkCell r' (job st) (trace st ++ [EInvoke (Raised e)])))
                ltac:(lia)) as (n & Hn & Hpos & -> & -> & Hfailed & Hjob).
    assert (0 < m) as Hm by lia. specialize (Hpos Hm).
    exists (S n). cbn [invocations remote_after log remote trace job] in *.
    rewrite Hcall. cbn [snd].
    split_and!; try done; try lia.
    + destruct n as [|n']; [lia|].
      cbn [invocations] in *. destruct (invoke r') as [o2 r2].
      rewrite <- !app_assoc. done.
    + intros [|k] o Hk Hlt; cbn in Hk.
      * injection Hk as <-. eauto.
      * apply (Hfailed k o Hk). lia.
    + intros _. by apply Hjob.
Qed.

(** X16. For every value of [num_retries], the loop over
    [range(num_retries)] calls the endpoint at most that many times, one
    call after the other, and the service is left as these calls leave it.
    Its events are these calls with the message and one sleep of 5 seconds
    between each two consecutive calls and nothing else: every sleep lasts
    5 seconds, follows a failed call and its message, and is followed at
    once by the next call; every call but the last raised an instance of
    [Exception].  With a bound of 0 the loop does nothing and leaves [job]
    unset; with a positive bound it calls at least once and ends normally
    only with a job. *)
Theorem retry_loop_any_bound (bound : nat) (r : Remote) :
  let run := retry_loop invoke bound (Py.range 0 bound 1) (mkCell r None []) in
  let tr := trace (final_state run) in
  let n := length (attempts tr) in
  n ≤ bound
  ∧ attempts tr = invocations invoke n r
  ∧ remote (final_state run) = remote_after invoke n r
  ∧ sleeps tr = replicate (n - 1) 5
  ∧ (bound = 0 → run = Done (mkCell r None []))
  ∧ (0 < bound → 1 ≤ n ∧ ∀ st, run = Done st → is_Some (job st))
  ∧ tr = spaced (invocations invoke n r)
  ∧ (∀ k o, attempts tr !! k = Some o → S k < n →
       ∃ e, o = Raised e ∧ isinstance e Exception = true)
  ∧ (∀ k s, tr !! k = Some (ESleep s) →
       s = 5
       ∧ (∃ e, tr !! (k - 2) = Some (EInvoke (Raised e)) ∧ 2 ≤ k)
       ∧ tr !! (k - 1) = Some (EPrint retry_message)
       ∧ ∃ o, tr !! (k + 1) = Some (EInvoke o))
  ∧ (∀ k o k' o', tr !! k = Some (EInvoke o) → tr !! k' = Some (EInvoke o') →
       k < k' →
       tr !! (k + 1) = Some (EPrint retry_message)
       ∧ tr !! (k + 2) = Some (ESleep 5)
       ∧ ∃ o'', tr !! (k + 3) = Some (EInvoke o'')).
Proof.
  intros run tr n. subst n tr run. rewrite range_by_one.
  destruct (retry_loop_from bound bound 0 (mkCell r None []) eq_refl)
    as (n & Hn & Hpos & Htr & Hrem & Hfailed & Hjob).
  cbn [remote trace app] in Htr, Hrem, Hfailed.
  set (results := invocations invoke n r) in *.
  assert (length results = n) as Hlen by apply invocations_length.
  destruct (spaced_attempts results) as [Hatt Hsl]. rewrite Hlen in Hsl.
  rewrite Htr, Hatt, Hlen.
  (* where the events of [spaced results] are *)
  assert (∀ k ev, spaced results !! k = Some ev →
            (k mod 3 = 0 ∧ ∃ o, ev = EInvoke o ∧ results !! (k / 3) = Some o)
            ∨ (k mod 3 = 1 ∧ ev = EPrint retry_message ∧ S (k / 3) < n)
            ∨ (k mod 3 = 2 ∧ ev = ESleep 5 ∧ S (k / 3) < n)) as Hwhere.
  { intros k ev Hk.
    pose proof (Nat.div_mod_eq k 3) as Hdm.
    pose proof (Nat.mod_upper_bound k 3 ltac:(lia)) as Hlt.
    destruct (spaced_lookup (k / 3) results) as (H0 & H1 & H2).
    rewrite Hlen in H1, H2.
    destruct (k mod 3) as [|[|[|?]]] eqn:Hmod; [| | |lia].
    - left. split; [done|]. replace (3 * (k / 3)) with k in H0 by lia.
      rewrite Hk in H0. destruct (results !! (k / 3)) as [o|]; [|done].
      exists o. split; [|done]. by injection H0.
    - right; left. replace (3 * (k / 3) + 1) with k in H1 by lia.
      rewrite Hk in H1. case_decide; [|done]. split_and!; [done| |done].
      by injection H1.
    - right; right. replace (3 * (k / 3) + 2) with k in H2 by lia.
      rewrite Hk in H2. case_decide; [|done]. split_and!; [done| |done].
      by injection H2. }
  split_and!; try done.
  - by intros ->.
  - intros Hb. split; [by apply Hpos | by apply Hjob].
  - intros k s Hk.
    destruct (Hwhere k _ Hk) as [(_ & a & [=] & _)|[(_ & [=] & _)|(Hmod & [= ->] & Hq)]].
    pose proof (Nat.div_mod_eq k 3) as Hdm.
    destruct (spaced_lookup (k / 3) results) as (H0 & H1 & _).
    destruct (spaced_lookup (S (k / 3)) results) as (H3 & _ & _).
    rewrite Hlen in H1. rewrite decide_True in H1 by done.
    destruct (results !! (k / 3)) as [o|] eqn:Ho;
      [|apply lookup_ge_None in Ho; lia].
    destruct (Hfailed (k / 3) o Ho Hq) as (e & -> & _).
    destruct (results !! S (k / 3)) as [o'|] eqn:Ho';
      [|apply lookup_ge_None in Ho'; lia].
    split_and!.
    + done.
    + exists e. split; [|lia].
      replace (k - 2) with (3 * (k / 3)) by lia. by rewrite H0.
    + replace (k - 1) with (3 * (k / 3) + 1) by lia. done.
    + exists o'. replace (k + 1) with (3 * S (k / 3)) by lia. by rewrite H3.
  - intros k o k' o' Hk Hk' Hlt.
    destruct (Hwhere k _ Hk) as [(Hmod & a & _ & Ho)|[(_ & [=] & _)|(_ & [=] & _)]].
    destruct (Hwhere k' _ Hk') as [(Hmod' & a' & _ & Ho')|[(_ & [=] & _)|(_ & [=] & _)]].
    pose proof (Nat.div_mod_eq k 3) as Hdm.
    pose proof (Nat.div_mod_eq k' 3) as Hdm'.
    apply lookup_lt_Some in Ho'. rewrite Hlen in Ho'.
    assert (S (k / 3) < n) as Hq by lia.
    destruct (spaced_lookup (k / 3) results) as (_ & H1 & H2).
    destruct (spaced_lookup (S (k / 3)) results) as (H3 & _ & _).
    rewrite Hlen in H1, H2. rewrite decide_True in H1, H2 by done.
    destruct (results !! S (k / 3)) as [o''|] eqn:Ho'';
      [|apply lookup_ge_None in Ho''; lia].
    split_and!.
    + replace (k + 1) with (3 * (k / 3) + 1) by lia. done.
    + replace (k + 2) with (3 * (k / 3) + 2) by lia. done.
    + exists o''. replace (k + 3) with (3 * S (k / 3)) by lia. by rewrite H3.
Qed.
End RetryAnyBound.

(** ** The whole cell, with a stream call that may raise *)

Section WholeCell.
Context {Remote : Type}.
Variable invoke : Remote → Outcome BatchJob * Remote.
Variable jobs_stream : Remote → string → Outcome () * Remote.

(** The whole cell does what [invoke_cell] does, and ends as the stream
    call ends. *)
Lemma whole_cell_after_invoke_cell (r : Remote) :
  invoke_and_stream_cell invoke jobs_stream r
  = match invoke_cell invoke r with
    | Done st =>
        match job st with
        | Some j =>
            let '(result, remote') := jobs_stream (remote st) (job_name j) in
            match result with
            | Returned _ => Done (mkCell remote' (job st) (trace st))
            | Raised e => Uncaught e (mkCell remote' (job st) (trace st))
            end
        | None => Done st
        end
    | Uncaught e st => Uncaught e st
    end.
Proof.
  unfold invoke_and_stream_cell, invoke_cell.
  destruct (retry_loop invoke num_retries (Py.range 0 num_retries 1)
              (mkCell r None [])) as [st|e st]; [|done].
  destruct (job st) as [j|] eqn:Hjob; cbn; rewrite Hjob; [|done].
  destruct (jobs_stream (remote st) (job_name j)) as [[u|e] r']; reflexivity.
Qed.

(** What the cell has done and the value of [job] do not depend on how the
    stream call ends. *)
Lemma whole_cell_trace (r : Remote) :
  trace (final_state (invoke_and_stream_cell invoke jobs_stream r))
  = trace (final_state (invoke_cell invoke r))
  ∧ job (final_state (invoke_and_stream_cell invoke jobs_stream r))
    = job (final_state (invoke_cell invoke r)).
Proof.
  rewrite whole_cell_after_invoke_cell.
  destruct (invoke_cell invoke r) as [st|e st]; [|done].
  destruct (job st) as [j|] eqn:Hjob; [|done].
  destruct (jobs_stream (remote st) (job_name j)) as [[u|e] r']; cbn; by rewrite Hjob.
Qed.
End WholeCell.

(** [invoke_cell] is the whole cell on a service whose stream call
    returns. *)
Lemma invoke_cell_stream_returns {Remote : Type}
    (invoke : Remote → Outcome BatchJob * Remote) (r : Remote) :
  invoke_cell invoke r = invoke_and_stream_cell invoke (λ r _, (Returned (), r)) r.
Proof.
  rewrite whole_cell_after_invoke_cell. unfold invoke_cell.
  destruct (retry_loop invoke num_retries (Py.range 0 num_retries 1)
              (mkCell r None [])) as [[r' j tr]|e st]; [|done].
  by destruct j.
Qed.

(** X17. How a run of the whole cell ends.  The endpoint has been invoked
    exactly as often as there are attempts, and every attempt before the
    last one raised an instance of [Exception].  When the last attempt
    raised, its exception leaves the cell, [job] is still [None] and the
    stream call is not made.  When the last attempt returned, [job] is its
    job and the stream call is made once, for that job, on the service as
    the attempts left it: the cell ends normally when that call returns, and
    with the exception of that call when it raises.  No other exception
    leaves the cell. *)
Theorem whole_cell_outcome {Remote : Type}
    (invoke : Remote → Outcome BatchJob * Remote)
    (jobs_stream : Remote → string → Outcome () * Remote) (r : Remote) :
  let run := invoke_and_stream_cell invoke jobs_stream r in
  let st := final_state run in
  let tries := attempts (trace st) in
  let served := remote_after invoke (length tries) r in
  tries = invocations invoke (length tries) r
  ∧ (∀ k o, tries !! k = Some o → S k < length tries →
       ∃ e, o = Raised e ∧ isinstance e Exception = true)
  ∧ match last tries with
    | Some (Raised e) =>
        run = Uncaught e st ∧ job st = None ∧ streamed (trace st) = []
        ∧ remote st = served
    | Some (Returned j) =>
        job st = Some j ∧ streamed (trace st) = [job_name j]
        ∧ remote st = (jobs_stream served (job_name j)).2
        ∧ match (jobs_stream served (job_name j)).1 with
          | Returned _ => run = Done st
          | Raised e => run = Uncaught e st
          end
    | None => False
    end.
Proof.
  intros run st tries served. subst served tries st.
  destruct (whole_cell_trace invoke jobs_stream r) as [Htr Hjob].
  fold run in Htr, Hjob. rewrite Htr, Hjob. subst run. clear Htr Hjob.
  rewrite whole_cell_after_invoke_cell.
  cell_cases invoke r; do 4 (cbn; rewrite ?Hcall, ?Hcall0, ?Hcall1).
  all: try (destruct (jobs_stream _ _) as [[[]|?] ?]; cbn).
  all: split_and!; try done.
  all: intros k o Hk Hlt; position_cases k; try lia; eauto.
Qed.

(** A run whose attempt succeeds and whose stream call fails: the
    exception of the stream call leaves the cell, with [job] set. *)
Example stream_failure_leaves_the_cell :
  invoke_and_stream_cell scripted (stream_fails http_503) [Returned job_1]
  = Uncaught http_503
      (mkCell [] (Some job_1) [EInvoke (Returned job_1); EStream "batchjob-1"]).
Proof. reflexivity. Qed.
